(** * Edge stack manager (package [stack] of the Portainer agent)

    A shallow embedding of the reconciler, the worker loop and the
    lifecycle controller of [StackManager], and the properties of the
    specification that concern them.

    Modelling conventions.

    - Go's [int] is taken to be 64 bits wide.  Stack identifiers and
      versions are only compared and printed, so they are plain [Z]; the
      one arithmetic operation of the package, [stack.Retries += 1], wraps
      ([int_add]), and [%] is Go's truncated remainder ([Z.rem]).
    - An [error] is identified with its [Error()] text; a nil error is
      [None].
    - The coordinator client, the filesystem and the deployer are opaque
      collaborators.  Every call to one of them is appended to the list
      [calls] of the world, and its outcome is given by the environment
      [Env] as a function of the calls made so far and of the call itself,
      so the environment may answer the same call differently over time.
    - [manager.stacks] has type [map[edgeStackID]*edgeStack].  A pointer is
      created once per key (in [processStack] and [buildDeployerParams],
      when the key is absent), is stored under its own [ID] only, and is
      removed by the worker alone.  The key therefore serves as the address
      of the record: a [*edgeStack] held by a function is modelled by its
      key, a field assignment through the pointer is an update of the table
      at that key at the point where the source performs it, and
      [manager.stacks[stack.ID] = stack] is an insertion at the [ID] field.
      The two coincide on tables where every record sits under its own
      [ID] ([table_wf]), which all operations preserve.
    - Go iterates over a map in an unspecified order.  A function that
      ranges over a map takes the order of the keys as an argument
      ([order]); [range_of] says that such a list is a possible order. *)

From Stdlib Require Import ZArith Lia.
From stdpp Require Import base option list strings pretty gmap fin_maps.

Local Open Scope Z_scope.

(** ** Go integers *)

Definition int_min : Z := - 2 ^ 63.
Definition int_max : Z := 2 ^ 63 - 1.

(** Two's complement wrap-around of a 64-bit [int]. *)
Definition int_wrap (z : Z) : Z := (z + 2 ^ 63) `mod` 2 ^ 64 - 2 ^ 63.

Definition int_add (x y : Z) : Z := int_wrap (x + y).

(** ** Imported packages *)

Definition error := string.

Inductive result (A : Type) :=
| Ok (a : A)
| Err (err : error).
Arguments Ok {A} a.
Arguments Err {A} err.

Module agent.
(** Modelled from the spec: [agent.RegistryCredentials] is declared in
    agent.go, which is not part of the sources at hand; the data model
    gives a list of {registry, username, password} tuples. *)
Record RegistryCredentials := {
  ServerURL : string;
  Username : string;
  Secret : string;
}.
End agent.

Module portainer.
(** Modelled from the spec: the status codes are declared in the Portainer
    API package, which is not part of the sources at hand; these are the four
    that the package reports to the coordinator. *)
Inductive EdgeStackStatusType :=
| EdgeStackStatusOk
| EdgeStackStatusError
| EdgeStackStatusAcknowledged
| EdgeStackStatusImagesPulled.
End portainer.

Module EdgeStackConfig.
(** Modelled from the spec: [client.EdgeStackConfig], the answer of
    [GetEdgeStackConfig], is declared in package client, which is not part
    of the sources at hand; the fields are those the interface of the
    coordinator client lists, under the names [processStack] reads them
    by. *)
Record t := mk {
  Name : string;
  FileContent : string;
  RegistryCredentials : list agent.RegistryCredentials;
  Namespace : string;
  PrePullImage : bool;
  RePullImage : bool;
}.
End EdgeStackConfig.

Module EdgeStackData.
(** Modelled from the spec: [client.EdgeStackData], the argument of
    [DeployStack] and [DeleteStack], is declared in package client as well;
    the fields are those [buildDeployerParams] reads. *)
Record t := mk {
  ID : Z;
  Version : Z;
  Name : string;
  StackFileContent : string;
  RegistryCredentials : list agent.RegistryCredentials;
  PrePullImage : bool;
  RePullImage : bool;
}.
End EdgeStackData.

(** ** Data model of the package *)

Abbreviation edgeStackID := Z (only parsing).

Inductive edgeStackStatus :=
| StatusPending
| StatusDone
| StatusError
| StatusDeploying
| StatusRetry.

Inductive edgeStackAction :=
| actionDeploy
| actionUpdate
| actionDelete
| actionIdle.

(** [engineType] is an [int] whose named values start at 1; the zero value is
    what [NewStackManager] leaves in the manager. *)
Inductive engineType :=
| EngineTypeUnset
| EngineTypeDockerStandalone
| EngineTypeDockerSwarm
| EngineTypeKubernetes
| EngineTypeNomad.

#[global] Instance edgeStackStatus_eq_dec : EqDecision edgeStackStatus.
Proof. solve_decision. Defined.
#[global] Instance edgeStackAction_eq_dec : EqDecision edgeStackAction.
Proof. solve_decision. Defined.
#[global] Instance engineType_eq_dec : EqDecision engineType.
Proof. solve_decision. Defined.

Record edgeStack := mkEdgeStack {
  ID : edgeStackID;
  Name : string;
  Version : Z;
  FileFolder : string;
  FileName : string;
  Status : edgeStackStatus;
  Action : edgeStackAction;
  RegistryCredentials : list agent.RegistryCredentials;
  Namespace : string;
  PrePullImage : bool;
  RePullImage : bool;
  Retries : Z;
}.

(** Field assignments. *)
Definition set_Name (x : string) (s : edgeStack) : edgeStack :=
  mkEdgeStack (ID s) x (Version s) (FileFolder s) (FileName s) (Status s)
    (Action s) (RegistryCredentials s) (Namespace s) (PrePullImage s)
    (RePullImage s) (Retries s).
Definition set_Version (x : Z) (s : edgeStack) : edgeStack :=
  mkEdgeStack (ID s) (Name s) x (FileFolder s) (FileName s) (Status s)
    (Action s) (RegistryCredentials s) (Namespace s) (PrePullImage s)
    (RePullImage s) (Retries s).
Definition set_FileFolder (x : string) (s : edgeStack) : edgeStack :=
  mkEdgeStack (ID s) (Name s) (Version s) x (FileName s) (Status s)
    (Action s) (RegistryCredentials s) (Namespace s) (PrePullImage s)
    (RePullImage s) (Retries s).
Definition set_FileName (x : string) (s : edgeStack) : edgeStack :=
  mkEdgeStack (ID s) (Name s) (Version s) (FileFolder s) x (Status s)
    (Action s) (RegistryCredentials s) (Namespace s) (PrePullImage s)
    (RePullImage s) (Retries s).
Definition set_Status (x : edgeStackStatus) (s : edgeStack) : edgeStack :=
  mkEdgeStack (ID s) (Name s) (Version s) (FileFolder s) (FileName s) x
    (Action s) (RegistryCredentials s) (Namespace s) (PrePullImage s)
    (RePullImage s) (Retries s).
Definition set_Action (x : edgeStackAction) (s : edgeStack) : edgeStack :=
  mkEdgeStack (ID s) (Name s) (Version s) (FileFolder s) (FileName s)
    (Status s) x (RegistryCredentials s) (Namespace s) (PrePullImage s)
    (RePullImage s) (Retries s).
Definition set_RegistryCredentials (x : list agent.RegistryCredentials)
    (s : edgeStack) : edgeStack :=
  mkEdgeStack (ID s) (Name s) (Version s) (FileFolder s) (FileName s)
    (Status s) (Action s) x (Namespace s) (PrePullImage s) (RePullImage s)
    (Retries s).
Definition set_Namespace (x : string) (s : edgeStack) : edgeStack :=
  mkEdgeStack (ID s) (Name s) (Version s) (FileFolder s) (FileName s)
    (Status s) (Action s) (RegistryCredentials s) x (PrePullImage s)
    (RePullImage s) (Retries s).
Definition set_PrePullImage (x : bool) (s : edgeStack) : edgeStack :=
  mkEdgeStack (ID s) (Name s) (Version s) (FileFolder s) (FileName s)
    (Status s) (Action s) (RegistryCredentials s) (Namespace s) x
    (RePullImage s) (Retries s).
Definition set_RePullImage (x : bool) (s : edgeStack) : edgeStack :=
  mkEdgeStack (ID s) (Name s) (Version s) (FileFolder s) (FileName s)
    (Status s) (Action s) (RegistryCredentials s) (Namespace s)
    (PrePullImage s) x (Retries s).
Definition set_Retries (x : Z) (s : edgeStack) : edgeStack :=
  mkEdgeStack (ID s) (Name s) (Version s) (FileFolder s) (FileName s)
    (Status s) (Action s) (RegistryCredentials s) (Namespace s)
    (PrePullImage s) (RePullImage s) x.

(** [&edgeStack{ID: ..., Action: ..., Status: ..., Version: ...}]: the fields
    that a composite literal leaves out have their zero value.  Neither
    literal of the package leaves [Action] out; [buildDeployerParams] leaves
    [Status] out and assigns it before the record is stored. *)
Definition new_edgeStack (id : edgeStackID) (action : edgeStackAction)
    (status : edgeStackStatus) (version : Z) : edgeStack :=
  mkEdgeStack id "" version "" "" status action [] "" false false 0.

Definition RetryInterval : Z := 3600 `quot` 5.
Definition MaxRetries : Z := RetryInterval * 24 * 7.

Record StackManager := mkStackManager {
  engine : engineType;                    (* field [engineType] *)
  stacks : gmap Z edgeStack;
  stopSignal : option unit;               (* nil, or an open channel *)
  deployer : option engineType;           (* nil, or the deployer built for a kind *)
  isEnabled : bool;
  assetsPath : string;
}.

(** ** The collaborators *)

(** Calls that leave the package.  [Pull], [Deploy] and [Remove] are the
    methods of [agent.Deployer]; their first component is not an argument
    of the call: it records the stack on whose behalf the worker issues
    it. *)
Inductive Call :=
| GetEdgeStackConfig (edgeStackID : Z)
| SetEdgeStackStatus (edgeStackID : Z)
    (status : portainer.EdgeStackStatusType) (message : string)
| DeleteEdgeStackStatus (edgeStackID : Z)
| WriteFile (folder file content : string) (mode : Z)
| RemoveAll (path : string)
| Pull (stack : edgeStackID) (name : string) (filePaths : list string)
| Deploy (stack : edgeStackID) (name : string) (filePaths : list string)
    (namespace : string)
| Remove (stack : edgeStackID) (name : string) (filePaths : list string).

#[global] Instance RegistryCredentials_eq_dec :
  EqDecision agent.RegistryCredentials.
Proof. solve_decision. Defined.
#[global] Instance EdgeStackStatusType_eq_dec :
  EqDecision portainer.EdgeStackStatusType.
Proof. solve_decision. Defined.
#[global] Instance Call_eq_dec : EqDecision Call.
Proof. solve_decision. Defined.
#[global] Instance edgeStack_eq_dec : EqDecision edgeStack.
Proof. solve_decision. Defined.

(** What the package does not define itself.  The two constants are
    declared in agent.go; [ParseDuration] is [time.ParseDuration],
    [filepath_Dir] is [filepath.Dir], [AddImagePullSecrets] is the content
    returned by [yaml.NewYAML(content, credentials).AddImagePullSecrets()],
    whose error the package discards, and [NewDeployer] is the error, if
    any, of the constructor of the deployer of an engine kind
    ([exec.NewDockerComposeStackService], [exec.NewDockerSwarmStackService],
    [nomad.NewDeployer]). *)
Record Env := mkEnv {
  EdgeStackFilesPath : string;
  EdgeStackQueueSleepInterval : string;
  ParseDuration : string → result Z;
  filepath_Dir : string → string;
  AddImagePullSecrets : string → list agent.RegistryCredentials → string;
  NewDeployer : string → engineType → option error;
  (** the answer of the coordinator to [GetEdgeStackConfig] *)
  config_of : list Call → Z → result EdgeStackConfig.t;
  (** the error, if any, of every other call *)
  error_of : list Call → Call → option error;
}.

(** The manager together with the calls made so far, oldest first, and the
    number of worker goroutines that [Start] has launched. *)
Record World := mkWorld {
  manager : StackManager;
  calls : list Call;
  workers : nat;
}.

Definition table (w : World) : gmap Z edgeStack := stacks (manager w).

Definition set_stacks (m : gmap Z edgeStack) (w : World) : World :=
  mkWorld
    (mkStackManager (engine (manager w)) m (stopSignal (manager w))
       (deployer (manager w)) (isEnabled (manager w)) (assetsPath (manager w)))
    (calls w) (workers w).

(** A write to the record at address [stack]. *)
Definition poke (stack : edgeStackID) (s : edgeStack) (w : World) : World :=
  set_stacks (<[stack := s]> (table w)) w.

Definition log (c : Call) (w : World) : World :=
  mkWorld (manager w) (calls w ++ [c]) (workers w).

(** [NewStackManager]. *)
Definition NewStackManager (assetsPath : string) : StackManager :=
  mkStackManager EngineTypeUnset ∅ None None false assetsPath.

(** [l] is an order in which [range m] may deliver the keys of [m]. *)
Definition range_of {V} (m : gmap Z V) (l : list Z) : Prop :=
  l ≡ₚ (map_to_list m).*1.

(** Every record sits under its own identifier. *)
Definition table_wf (m : gmap Z edgeStack) : Prop :=
  map_Forall (λ k s, ID s = k) m.

Section Manager.

Variable E : Env.

(** A call whose only result is an error. *)
Definition call (c : Call) (w : World) : option error * World :=
  (error_of E (calls w) c, log c w).

Definition getEdgeStackConfig (id : Z) (w : World)
  : result EdgeStackConfig.t * World :=
  (config_of E (calls w) id, log (GetEdgeStackConfig id) w).

(** ** Reconciler *)

(** [processStack].  For a known stack the assignments are made through the
    pointer that the table holds, so they are visible in the table as soon
    as they are made, also when the function returns early with an error. *)
Definition processStack (stackID version : Z) (w : World)
  : option error * World :=
  let processedStack := table w !! stackID in
  let unchanged :=
    match processedStack with
    | Some stack => bool_decide (Version stack = version)
    | None => false
    end in
  if unchanged then (None, w) (* stack is unchanged *)
  else
    (* [tabled] tells whether [stack] is the pointer held by the table *)
    let '(tabled, stack) :=
      match processedStack with
      | Some stack =>
          (true,
           set_Status StatusPending
             (set_Version version (set_Action actionUpdate stack)))
      | None =>
          (false, new_edgeStack stackID actionDeploy StatusPending version)
      end in
    let w := if tabled then poke stackID stack w else w in
    let '(r, w) := getEdgeStackConfig (ID stack) w in
    match r with
    | Err err => (Some err, w)
    | Ok stackConfig =>
        let stack :=
          set_RePullImage (EdgeStackConfig.RePullImage stackConfig)
            (set_PrePullImage (EdgeStackConfig.PrePullImage stackConfig)
               (set_Namespace (EdgeStackConfig.Namespace stackConfig)
                  (set_RegistryCredentials
                     (EdgeStackConfig.RegistryCredentials stackConfig)
                     (set_Name (EdgeStackConfig.Name stackConfig) stack)))) in
        let w := if tabled then poke stackID stack w else w in
        let folder := EdgeStackFilesPath E +:+ "/" +:+ pretty stackID in
        let fileName := "docker-compose.yml" in
        let fileContent := EdgeStackConfig.FileContent stackConfig in
        let '(fileName, fileContent) :=
          if decide (engine (manager w) = EngineTypeKubernetes) then
            (Name stack +:+ ".yml",
             match EdgeStackConfig.RegistryCredentials stackConfig with
             | [] => fileContent
             | _ :: _ =>
                 AddImagePullSecrets E fileContent
                   (EdgeStackConfig.RegistryCredentials stackConfig)
             end)
          else (fileName, fileContent) in
        let fileName :=
          if decide (engine (manager w) = EngineTypeNomad)
          then Name stack +:+ ".hcl" else fileName in
        let '(err, w) := call (WriteFile folder fileName fileContent 420) w in
        match err with
        | Some err => (Some err, w)
        | None =>
            let stack := set_FileName fileName (set_FileFolder folder stack) in
            let w := if tabled then poke stackID stack w else w in
            let w := poke (ID stack) stack w in
            call (SetEdgeStackStatus (ID stack)
                    portainer.EdgeStackStatusAcknowledged "") w
        end
    end.

(** [processRemovedStacks]: the loop visits every entry once and touches
    only the entry it visits, so its result does not depend on the order. *)
Definition processRemovedStacks (pollResponseStacks : gmap Z Z) (w : World)
  : World :=
  set_stacks
    (map_imap
       (λ stackID stack,
          Some (match pollResponseStacks !! stackID with
                | None => set_Status StatusPending (set_Action actionDelete stack)
                | Some _ => stack
                end))
       (table w))
    w.

(** The loop of [UpdateStacksStatus] over the snapshot, in the order
    [order]. *)
Fixpoint processStacks (pollResponseStacks : gmap Z Z) (order : list Z)
    (w : World) : option error * World :=
  match order with
  | [] => (None, w)
  | stackID :: order =>
      match pollResponseStacks !! stackID with
      | None => processStacks pollResponseStacks order w
      | Some version =>
          let '(err, w) := processStack stackID version w in
          match err with
          | Some err => (Some err, w)
          | None => processStacks pollResponseStacks order w
          end
      end
  end.

Definition UpdateStacksStatus (pollResponseStacks : gmap Z Z)
    (order : list Z) (w : World) : option error * World :=
  if negb (isEnabled (manager w)) then (None, w)
  else
    let '(err, w) := processStacks pollResponseStacks order w in
    match err with
    | Some err => (Some err, w)
    | None => (None, processRemovedStacks pollResponseStacks w)
    end.

(** [buildDeployerParams], the body of [DeployStack] and [DeleteStack]. *)
Definition buildDeployerParams (stackData : EdgeStackData.t)
    (deleteStack : bool) (w : World) : option error * World :=
  let folder :=
    EdgeStackFilesPath E +:+ "/" +:+ pretty (EdgeStackData.ID stackData) in
  let fileName := "docker-compose.yml" in
  let fileContent := EdgeStackData.StackFileContent stackData in
  let '(fileName, fileContent) :=
    if decide (engine (manager w) = EngineTypeKubernetes) then
      (EdgeStackData.Name stackData +:+ ".yml",
       match EdgeStackData.RegistryCredentials stackData with
       | [] => fileContent
       | _ :: _ =>
           AddImagePullSecrets E fileContent
             (EdgeStackData.RegistryCredentials stackData)
       end)
    else (fileName, fileContent) in
  let fileName :=
    if decide (engine (manager w) = EngineTypeNomad)
    then EdgeStackData.Name stackData +:+ ".hcl" else fileName in
  let '(err, w) :=
    if deleteStack then (None, w)
    else call (WriteFile folder fileName fileContent 420) w in
  match err with
  | Some err => (Some err, w)
  | None =>
      let processedStack := table w !! EdgeStackData.ID stackData in
      let unchanged :=
        match processedStack with
        | Some stack =>
            negb deleteStack
            && bool_decide (Version stack = EdgeStackData.Version stackData)
        | None => false
        end in
      if unchanged then (None, w)
      else
        let stack :=
          match processedStack with
          | Some stack =>
              if deleteStack then set_Action actionDelete stack
              else set_Action actionUpdate stack
          | None =>
              (* the literal leaves [Status] out; it is assigned below *)
              new_edgeStack (EdgeStackData.ID stackData) actionDeploy
                StatusPending 0
          end in
        let stack :=
          set_FileName fileName
            (set_FileFolder folder
               (set_RePullImage (EdgeStackData.RePullImage stackData)
                  (set_PrePullImage (EdgeStackData.PrePullImage stackData)
                     (set_Version (EdgeStackData.Version stackData)
                        (set_Status StatusPending
                           (set_RegistryCredentials
                              (EdgeStackData.RegistryCredentials stackData)
                              (set_Name (EdgeStackData.Name stackData)
                                 stack))))))) in
        let w :=
          match processedStack with
          | Some _ => poke (EdgeStackData.ID stackData) stack w
          | None => w
          end in
        (None, poke (ID stack) stack w)
  end.

Definition DeployStack (stackData : EdgeStackData.t) (w : World)
  : option error * World :=
  buildDeployerParams stackData false w.

Definition DeleteStack (stackData : EdgeStackData.t) (w : World)
  : option error * World :=
  buildDeployerParams stackData true w.

(** [GetEdgeRegistryCredentials]; a nil slice is the empty list. *)
Fixpoint GetEdgeRegistryCredentials (order : list edgeStackID) (w : World)
  : list agent.RegistryCredentials :=
  match order with
  | [] => []
  | id :: order =>
      match table w !! id with
      | Some stack =>
          if decide (Status stack = StatusDeploying)
          then RegistryCredentials stack
          else GetEdgeRegistryCredentials order w
      | None => GetEdgeRegistryCredentials order w
      end
  end.

(** ** Worker *)

(** The first loop of [nextPendingStack]. *)
Fixpoint firstPending (order : list edgeStackID) (m : gmap Z edgeStack)
  : option edgeStackID :=
  match order with
  | [] => None
  | id :: order =>
      match m !! id with
      | Some stack =>
          if decide (Status stack = StatusPending) then Some id
          else firstPending order m
      | None => firstPending order m
      end
  end.

(** The body of its second loop. *)
Definition promote (stack : edgeStack) : edgeStack :=
  if decide (Status stack = StatusRetry)
  then set_Status StatusPending stack else stack.

Definition nextPendingStack (order : list edgeStackID) (w : World)
  : option edgeStackID * World :=
  match firstPending order (table w) with
  | Some stack => (Some stack, w)
  | None => (None, set_stacks (promote <$> table w) w)
  end.

(** [pullImages].  The worker only ever holds the pointer of a record that
    is in the table; for any other [stack] the functions of the worker do
    nothing. *)
Definition pullImages (stack : edgeStackID) (stackName stackFileLocation : string)
    (w : World) : option error * World :=
  match table w !! stack with
  | None => (None, w)
  | Some s =>
      if PrePullImage s || RePullImage s then
        let s := set_Retries (int_add (Retries s) 1) s in
        let w := poke stack s w in
        if bool_decide (Retries s ≤ RetryInterval)
           || bool_decide (Z.rem (Retries s) RetryInterval = 0) then
          let s := set_Status StatusDeploying s in
          let w := poke stack s w in
          let '(err, w) := call (Pull stack stackName [stackFileLocation]) w in
          match err with
          | None =>
              let s := set_Action actionIdle s in
              let w := poke stack s w in
              let '(_, w) :=
                call (SetEdgeStackStatus (ID s)
                        portainer.EdgeStackStatusImagesPulled "") w in
              (None, w)
          | Some err =>
              if bool_decide (Retries s < MaxRetries) then
                (Some err, poke stack (set_Status StatusRetry s) w)
              else
                let w := poke stack (set_Status StatusError s) w in
                let '(_, w) :=
                  call (SetEdgeStackStatus (ID s)
                          portainer.EdgeStackStatusError err) w in
                (Some err, w)
          end
        else (Some "skip pulling", w)
      else (None, w)
  end.

Definition deployStack (stack : edgeStackID) (stackName stackFileLocation : string)
    (w : World) : World :=
  match table w !! stack with
  | None => w
  | Some s =>
      let s := set_Action actionIdle (set_Status StatusDeploying s) in
      let w := poke stack s w in
      let '(err, w) :=
        call (Deploy stack stackName [stackFileLocation] (Namespace s)) w in
      let '(s, responseStatus, errorMessage) :=
        match err with
        | Some err =>
            (set_Status StatusError s, portainer.EdgeStackStatusError, err)
        | None => (set_Status StatusDone s, portainer.EdgeStackStatusOk, "")
        end in
      let w := poke stack s w in
      let w := poke (ID s) s w in
      let '(_, w) :=
        call (SetEdgeStackStatus (ID s) responseStatus errorMessage) w in
      w
  end.

Definition deleteStack (stack : edgeStackID) (stackName stackFileLocation : string)
    (w : World) : World :=
  match table w !! stack with
  | None => w
  | Some s =>
      let '(err, w) := call (Remove stack stackName [stackFileLocation]) w in
      match err with
      | Some _ => w
      | None =>
          (* Remove stack file folder *)
          let '(err, w) := call (RemoveAll (filepath_Dir E stackFileLocation)) w in
          match err with
          | Some _ => w
          | None =>
              let '(err, w) := call (DeleteEdgeStackStatus (ID s)) w in
              match err with
              | Some _ => w
              | None => set_stacks (delete (ID s) (table w)) w
              end
          end
      end
  end.

(** One turn of the loop that [Start] launches, from [nextPendingStack] to
    the end of the [default] case; the timer of the idle case is not
    modelled. *)
Definition workerIteration (order : list edgeStackID) (w : World) : World :=
  let '(stack, w) := nextPendingStack order w in
  match stack with
  | None => w
  | Some stack =>
      match table w !! stack with
      | None => w
      | Some s =>
          let stackName := "edge_" +:+ Name s in
          let stackFileLocation := FileFolder s +:+ "/" +:+ FileName s in
          if bool_decide (Action s = actionDeploy)
             || bool_decide (Action s = actionUpdate) then
            let '(err, w) := pullImages stack stackName stackFileLocation w in
            match err with
            | None => deployStack stack stackName stackFileLocation w
            | Some _ => w
            end
          else if bool_decide (Action s = actionDelete) then
            deleteStack stack stackName stackFileLocation w
          else w
      end
  end.

(** ** Lifecycle *)

Definition set_lifecycle (signal : option unit) (enabled : bool) (w : World)
  : World :=
  mkWorld
    (mkStackManager (engine (manager w)) (table w) signal
       (deployer (manager w)) enabled (assetsPath (manager w)))
    (calls w) (workers w).

Definition Stop (w : World) : option error * World :=
  match stopSignal (manager w) with
  | Some _ => (None, set_lifecycle None false w)
  | None => (None, w)
  end.

(** [buildDeployerService]; a deployer is represented by the engine kind
    it was built for. *)
Definition buildDeployerService (assetsPath : string)
    (engineStatus : engineType) : result engineType :=
  match engineStatus with
  | EngineTypeDockerStandalone | EngineTypeDockerSwarm | EngineTypeNomad =>
      match NewDeployer E assetsPath engineStatus with
      | Some err => Err err
      | None => Ok engineStatus
      end
  | EngineTypeKubernetes => Ok EngineTypeKubernetes
  | EngineTypeUnset => Err "engine status 0 not supported"
  end.

Definition SetEngineStatus (engineStatus : engineType) (w : World)
  : option error * World :=
  if decide (engineStatus = engine (manager w)) then (None, w)
  else
    let w :=
      mkWorld
        (mkStackManager engineStatus (table w) (stopSignal (manager w))
           (deployer (manager w)) (isEnabled (manager w))
           (assetsPath (manager w)))
        (calls w) (workers w) in
    let '(err, w) := Stop w in
    match err with
    | Some err => (Some err, w)
    | None =>
        match buildDeployerService (assetsPath (manager w)) engineStatus with
        | Err err => (Some err, w)
        | Ok deployer =>
            (None,
             mkWorld
               (mkStackManager (engine (manager w)) (table w)
                  (stopSignal (manager w)) (Some deployer)
                  (isEnabled (manager w)) (assetsPath (manager w)))
               (calls w) (workers w))
        end
    end.

Definition Start (w : World) : option error * World :=
  match stopSignal (manager w) with
  | Some _ => (None, w)
  | None =>
      let w := set_lifecycle (Some ()) true w in
      match ParseDuration E (EdgeStackQueueSleepInterval E) with
      | Err err => (Some err, w)
      | Ok queueSleepInterval =>
          (* go func() { ... }() *)
          (None, mkWorld (manager w) (calls w) (S (workers w)))
      end
  end.

(** ** The worker and the reconciler side by side

    The reconciler runs on the goroutine of its caller.  The mutex makes
    [UpdateStacksStatus], [nextPendingStack], [pullImages], [deployStack] and
    the locked part of [buildDeployerParams] atomic with respect to each
    other; the worker reads [stack.Action] and runs the three calls of
    [deleteStack] without the mutex.  The points at which the worker can be
    overtaken are therefore: *)
Inductive workerPC :=
| AtLoop
    (* top of the loop *)
| AtNames (stack : edgeStackID)
    (* [nextPendingStack] has returned [stack] *)
| AtCheckDeploy (stack : edgeStackID) (stackName stackFileLocation : string)
    (* before [stack.Action == actionDeploy] *)
| AtCheckUpdate (stack : edgeStackID) (stackName stackFileLocation : string)
    (* before [stack.Action == actionUpdate] *)
| AtCheckDelete (stack : edgeStackID) (stackName stackFileLocation : string)
    (* before [stack.Action == actionDelete] *)
| AtPull (stack : edgeStackID) (stackName stackFileLocation : string)
    (* before [pullImages] *)
| AtDeploy (stack : edgeStackID) (stackName stackFileLocation : string)
    (* [pullImages] has returned nil; before [deployStack] *)
| AtRemove (stack : edgeStackID) (stackName stackFileLocation : string)
    (* in [deleteStack], before [deployer.Remove] *)
| AtRemoveAll (stack : edgeStackID) (stackName stackFileLocation : string)
    (* in [deleteStack], before [os.RemoveAll] *)
| AtDeleteStatus (stack : edgeStackID) (stackName stackFileLocation : string)
    (* in [deleteStack], before [DeleteEdgeStackStatus] *)
| AtDeleteEntry (stack : edgeStackID)
    (* in [deleteStack], before [delete(manager.stacks, stack.ID)] *).

(** The next atomic step of the worker; [order] is the order of the map
    iteration, should the step be [nextPendingStack]. *)
Definition workerStep (order : list edgeStackID) (pc : workerPC) (w : World)
  : workerPC * World :=
  match pc with
  | AtLoop =>
      let '(stack, w) := nextPendingStack order w in
      match stack with
      | None => (AtLoop, w)
      | Some stack => (AtNames stack, w)
      end
  | AtNames stack =>
      match table w !! stack with
      | None => (AtLoop, w)
      | Some s =>
          (AtCheckDeploy stack ("edge_" +:+ Name s)
             (FileFolder s +:+ "/" +:+ FileName s), w)
      end
  | AtCheckDeploy stack n l =>
      match table w !! stack with
      | None => (AtLoop, w)
      | Some s =>
          if bool_decide (Action s = actionDeploy) then (AtPull stack n l, w)
          else (AtCheckUpdate stack n l, w)
      end
  | AtCheckUpdate stack n l =>
      match table w !! stack with
      | None => (AtLoop, w)
      | Some s =>
          if bool_decide (Action s = actionUpdate) then (AtPull stack n l, w)
          else (AtCheckDelete stack n l, w)
      end
  | AtCheckDelete stack n l =>
      match table w !! stack with
      | None => (AtLoop, w)
      | Some s =>
          if bool_decide (Action s = actionDelete) then (AtRemove stack n l, w)
          else (AtLoop, w)
      end
  | AtPull stack n l =>
      let '(err, w) := pullImages stack n l w in
      match err with
      | None => (AtDeploy stack n l, w)
      | Some _ => (AtLoop, w)
      end
  | AtDeploy stack n l => (AtLoop, deployStack stack n l w)
  | AtRemove stack n l =>
      match table w !! stack with
      | None => (AtLoop, w)
      | Some _ =>
          let '(err, w) := call (Remove stack n [l]) w in
          match err with
          | Some _ => (AtLoop, w)
          | None => (AtRemoveAll stack n l, w)
          end
      end
  | AtRemoveAll stack n l =>
      let '(err, w) := call (RemoveAll (filepath_Dir E l)) w in
      match err with
      | Some _ => (AtLoop, w)
      | None => (AtDeleteStatus stack n l, w)
      end
  | AtDeleteStatus stack n l =>
      match table w !! stack with
      | None => (AtLoop, w)
      | Some s =>
          let '(err, w) := call (DeleteEdgeStackStatus (ID s)) w in
          match err with
          | Some _ => (AtLoop, w)
          | None => (AtDeleteEntry stack, w)
          end
      end
  | AtDeleteEntry stack =>
      match table w !! stack with
      | None => (AtLoop, w)
      | Some s => (AtLoop, set_stacks (delete (ID s) (table w)) w)
      end
  end.

(** What can happen next: a call of the reconciler, an out-of-band push, or
    a step of the worker. *)
Inductive Op :=
| OpUpdateStacksStatus (pollResponseStacks : gmap Z Z) (order : list Z)
| OpDeployStack (stackData : EdgeStackData.t)
| OpDeleteStack (stackData : EdgeStackData.t)
| OpWorker (order : list edgeStackID).

Definition System : Type := workerPC * World.

Definition step (op : Op) (sys : System) : System :=
  match op with
  | OpUpdateStacksStatus pollResponseStacks order =>
      (sys.1, (UpdateStacksStatus pollResponseStacks order sys.2).2)
  | OpDeployStack stackData => (sys.1, (DeployStack stackData sys.2).2)
  | OpDeleteStack stackData => (sys.1, (DeleteStack stackData sys.2).2)
  | OpWorker order => workerStep order sys.1 sys.2
  end.

(** The operations of [ops] one after the other, first to last. *)
Definition run (ops : list Op) (sys : System) : System :=
  foldl (λ sys op, step op sys) sys ops.

End Manager.

(** * Vocabulary of the properties *)

(** ** Manifests *)

(** The file name and the content that the manifest materializer chooses,
    written after the table of the specification (section 4.3); the code
    falls through to the Compose name when no engine kind has been set. *)
Definition manifestFileName (kind : engineType) (name : string) : string :=
  match kind with
  | EngineTypeDockerStandalone | EngineTypeDockerSwarm => "docker-compose.yml"
  | EngineTypeKubernetes => name +:+ ".yml"
  | EngineTypeNomad => name +:+ ".hcl"
  | EngineTypeUnset => "docker-compose.yml"
  end.

Definition manifestFolder (E : Env) (id : Z) : string :=
  EdgeStackFilesPath E +:+ "/" +:+ pretty id.

Definition manifestContent (E : Env) (kind : engineType) (content : string)
    (credentials : list agent.RegistryCredentials) : string :=
  match kind, credentials with
  | EngineTypeKubernetes, _ :: _ => AddImagePullSecrets E content credentials
  | _, _ => content
  end.

(** The [WriteFile] call that materializes a manifest. *)
Definition writeManifest (E : Env) (kind : engineType) (id : Z)
    (name content : string) (credentials : list agent.RegistryCredentials)
  : Call :=
  WriteFile (manifestFolder E id) (manifestFileName kind name)
    (manifestContent E kind content credentials) 420.

(** The record that [processStack] stores for configuration [c]: [s] with
    the given action, status [Pending], the new version and the fields of
    the configuration. *)
Definition configured (E : Env) (kind : engineType) (stackID version : Z)
    (action : edgeStackAction) (c : EdgeStackConfig.t) (s : edgeStack)
  : edgeStack :=
  mkEdgeStack (ID s) (EdgeStackConfig.Name c) version
    (manifestFolder E stackID)
    (manifestFileName kind (EdgeStackConfig.Name c))
    StatusPending action (EdgeStackConfig.RegistryCredentials c)
    (EdgeStackConfig.Namespace c) (EdgeStackConfig.PrePullImage c)
    (EdgeStackConfig.RePullImage c) (Retries s).


(** Everything of a world but the table and the calls. *)
Definition lifecycle (w : World)
  : engineType * option unit * option engineType * bool * string * nat :=
  (engine (manager w), stopSignal (manager w), deployer (manager w),
   isEnabled (manager w), assetsPath (manager w), workers w).

(** ** Invariants of the table *)

(** Invariant 2 of the data model, for one record. *)
Definition idle_settled (s : edgeStack) : Prop :=
  Action s = actionIdle →
  Status s = StatusDone ∨ Status s = StatusError ∨ Status s = StatusDeploying.







(** ** The throttle of the pull phase *)

(** Whether the pull phase, having counted [retries] attempts, makes a real
    attempt. *)
Definition attempts (retries : Z) : bool :=
  bool_decide (retries ≤ RetryInterval)
  || bool_decide (Z.rem retries RetryInterval = 0).

(** [c] is a [Pull] issued for stack [k]. *)
Definition is_pull_of (k : Z) (c : Call) : bool :=
  match c with
  | Pull stack _ _ => bool_decide (stack = k)
  | _ => false
  end.

(** The number of [Pull] calls for stack [k] among [cs]. *)
Definition pulls (k : Z) (cs : list Call) : nat :=
  length (List.filter (is_pull_of k) cs).

(** [n / m], rounded up. *)
Definition ceil_div (n m : Z) : Z := (n + m - 1) `div` m.

(** The deployer never manages to pull. *)
Definition pull_always_fails (E : Env) : Prop :=
  ∀ h stack name filePaths, error_of E h (Pull stack name filePaths) ≠ None.

(** Consecutive turns of the worker, one per element of [orders], with
    nothing else touching the manager in between. *)
Definition workerIterations (E : Env) (orders : list (list Z)) (w : World)
  : World :=
  foldl (λ w order, workerIteration E order w) w orders.

(** The number of [Pull] calls for [k] made during these turns. *)
Definition pulls_during (E : Env) (orders : list (list Z)) (w : World)
    (k : Z) : nat :=
  (pulls k (calls (workerIterations E orders w)) - pulls k (calls w))%nat.

(** What a function of the worker leaves as it is, as far as stack [k] is
    concerned: its retry counter and the number of its pulls. *)
Definition unchanged_for (k : Z) (w w' : World) : Prop :=
  Retries <$> table w' !! k = Retries <$> table w !! k
  ∧ pulls k (calls w') = pulls k (calls w).

(** One turn of the worker, seen from stack [k]: either its retry counter
    and the number of its pulls are as before (or the stack has left the
    table), or the counter has been incremented and there has been a pull
    exactly if the new value of the counter calls for an attempt. *)
Definition turn (k : Z) (w w' : World) : Prop :=
  table_wf (table w')
  ∧ ((pulls k (calls w') = pulls k (calls w)
      ∧ (table w' !! k = None
         ∨ Retries <$> table w' !! k = Retries <$> table w !! k))
     ∨ ∃ s,
         table w !! k = Some s
         ∧ Retries <$> table w' !! k = Some (int_add (Retries s) 1)
         ∧ pulls k (calls w')
           = (pulls k (calls w)
              + (if attempts (int_add (Retries s) 1) then 1 else 0))%nat).

(** A bound on the attempts that a retry counter can have called for by
    the time it has reached [r]: one for each value up to [RetryInterval],
    and one for each multiple of it. *)
Definition attempts_upto (r : Z) : Z :=
  Z.min r RetryInterval + r `div` RetryInterval.


(** ** Lifecycle *)

(** The calls of the lifecycle controller. *)
Inductive LifecycleOp :=
| CallStart
| CallStop
| CallSetEngineStatus (engineStatus : engineType).

Definition lifecycleStep (E : Env) (op : LifecycleOp) (w : World) : World :=
  match op with
  | CallStart => (Start E w).2
  | CallStop => (Stop w).2
  | CallSetEngineStatus engineStatus => (SetEngineStatus E engineStatus w).2
  end.

(** The calls of [ops] one after the other, first to last. *)
Definition lifecycleRun (E : Env) (ops : list LifecycleOp) (w : World) : World :=
  foldl (λ w op, lifecycleStep E op w) w ops.

(** The manager is enabled exactly when its stop channel is open. *)
Definition lifecycle_consistent (w : World) : Prop :=
  isEnabled (manager w) = true ↔ stopSignal (manager w) ≠ None.

(** ** Out-of-band pushes *)

(** The record that [buildDeployerParams] stores for the pushed data [d]:
    [s] with the given action, status [Pending] and the fields of [d]; the
    namespace and the retry counter of [s] stay. *)
Definition pushed (E : Env) (kind : engineType) (d : EdgeStackData.t)
    (action : edgeStackAction) (s : edgeStack) : edgeStack :=
  mkEdgeStack (ID s) (EdgeStackData.Name d) (EdgeStackData.Version d)
    (manifestFolder E (EdgeStackData.ID d))
    (manifestFileName kind (EdgeStackData.Name d))
    StatusPending action (EdgeStackData.RegistryCredentials d)
    (Namespace s) (EdgeStackData.PrePullImage d)
    (EdgeStackData.RePullImage d) (Retries s).

(** The [WriteFile] call of a push. *)
Definition writePushed (E : Env) (kind : engineType) (d : EdgeStackData.t)
  : Call :=
  writeManifest E kind (EdgeStackData.ID d) (EdgeStackData.Name d)
    (EdgeStackData.StackFileContent d) (EdgeStackData.RegistryCredentials d).

(** ** Calls about one stack *)

(** [c] is a call of the deployer on behalf of stack [k], or a call of the
    coordinator client about [k]. *)
Definition concerns (k : Z) (c : Call) : bool :=
  match c with
  | Pull stack _ _ | Deploy stack _ _ _ | Remove stack _ _ =>
      bool_decide (stack = k)
  | SetEdgeStackStatus id _ _ | DeleteEdgeStackStatus id
  | GetEdgeStackConfig id => bool_decide (id = k)
  | WriteFile _ _ _ _ | RemoveAll _ => false
  end.

(** The calls about stack [k] among [cs], in their order. *)
Definition calls_about (k : Z) (cs : list Call) : list Call :=
  List.filter (concerns k) cs.

(** [c] is a [Deploy] for stack [k]. *)
Definition is_deploy_of (k : Z) (c : Call) : bool :=
  match c with
  | Deploy stack _ _ _ => bool_decide (stack = k)
  | _ => false
  end.

(** The worker does not pick a record in this status, and does not sweep
    it. *)
Definition at_rest (s : edgeStack) : Prop :=
  Status s ≠ StatusPending ∧ Status s ≠ StatusRetry.

(** ** Stacks whose images are pulled first *)

(** The record of [k], if there is one, asks for its images to be pulled. *)
Definition pulls_first (k : Z) (w : World) : Prop :=
  ∀ s, table w !! k = Some s → PrePullImage s = true ∨ RePullImage s = true.

(** ** Deployments in flight *)





(** ** The retry counter *)

(** Every record of [m] is still in [m'], with the retry counter it had. *)
Definition retries_kept (m m' : gmap Z edgeStack) : Prop :=
  ∀ k s, m !! k = Some s → ∃ s', m' !! k = Some s' ∧ Retries s' = Retries s.

(** ** The traffic with the collaborators *)

(** [c] writes a file into the folder of stack [k], with mode 0644. *)
Definition writes_manifest (E : Env) (k : Z) (c : Call) : bool :=
  match c with
  | WriteFile folder _ _ mode =>
      bool_decide (folder = manifestFolder E k) && bool_decide (mode = 420)
  | _ => false
  end.

(** What [processStack] exchanges with its collaborators for one stack whose
    version is new: the fetch of the configuration, the write of the
    manifest, the acknowledgment. *)
Definition exchange (x : Z * Call) : list Call :=
  [GetEdgeStackConfig x.1; x.2;
   SetEdgeStackStatus x.1 portainer.EdgeStackStatusAcknowledged ""].

(** An exchange that an error has cut short: after the fetch, or after the
    write. *)
Definition cut_short (E : Env) (rest : list Call) : Prop :=
  rest = []
  ∨ ∃ k, rest = [GetEdgeStackConfig k]
         ∨ ∃ wr, writes_manifest E k wr = true
                 ∧ rest = [GetEdgeStackConfig k; wr].

(** The calls that a turn of the worker on stack [k], with record [s], may
    make: the deployer for project [edge_<name>] and the manifest of [s],
    the removal of the directory of that manifest, and reports other than
    [Acknowledged] about [s]. *)
Definition worker_call (E : Env) (k : Z) (s : edgeStack) (c : Call) : bool :=
  let n := "edge_" +:+ Name s in
  let l := FileFolder s +:+ "/" +:+ FileName s in
  match c with
  | Pull j n' ls | Remove j n' ls => bool_decide (j = k ∧ n' = n ∧ ls = [l])
  | Deploy j n' ls ns =>
      bool_decide (j = k ∧ n' = n ∧ ls = [l] ∧ ns = Namespace s)
  | RemoveAll p => bool_decide (p = filepath_Dir E l)
  | SetEdgeStackStatus j st _ =>
      bool_decide (j = ID s ∧ st ≠ portainer.EdgeStackStatusAcknowledged)
  | DeleteEdgeStackStatus j => bool_decide (j = ID s)
  | GetEdgeStackConfig _ | WriteFile _ _ _ _ => false
  end.

(** ** The queue of the worker *)

(** The records that are waiting for the worker. *)
Definition pending (m : gmap Z edgeStack) : gmap Z edgeStack :=
  filter (λ kv, Status kv.2 = StatusPending) m.

(** A record that the worker deploys without pulling. *)
Definition deployable (s : edgeStack) : Prop :=
  (Action s = actionDeploy ∨ Action s = actionUpdate)
  ∧ PrePullImage s = false ∧ RePullImage s = false.

(** * Scenarios *)

Definition demo_credentials : list agent.RegistryCredentials :=
  [agent.Build_RegistryCredentials "registry.local" "edge" "secret"].

Definition demo_config : EdgeStackConfig.t :=
  EdgeStackConfig.mk "web" "services: {}" demo_credentials "" true false.

(** The directory of a slash-separated path that needs no cleaning, as
    [filepath.Dir] gives it. *)
Fixpoint demo_dirname (path : string) : option string :=
  match path with
  | EmptyString => None
  | String c rest =>
      match demo_dirname rest with
      | Some dir => Some (String c dir)
      | None => if Ascii.eqb c (Ascii.ascii_of_nat 47) then Some "" else None
      end
  end.

Definition demo_Dir (path : string) : string :=
  default "." (demo_dirname path).

(** An environment in which every call succeeds. *)
Definition demo_env : Env :=
  mkEnv "/data" "5s" (λ _, Ok 5000) demo_Dir (λ c _, c) (λ _ _, None)
    (λ _ _, Ok demo_config) (λ _ _, None).

(** The same, but the deployer never manages to pull. *)
Definition flaky_env : Env :=
  mkEnv "/data" "5s" (λ _, Ok 5000) demo_Dir (λ c _, c) (λ _ _, None)
    (λ _ _, Ok demo_config)
    (λ _ c, match c with Pull _ _ _ => Some "pull failed" | _ => None end).

(** The same as [demo_env], but the coordinator knows stack 7 only. *)
Definition partial_env : Env :=
  mkEnv "/data" "5s" (λ _, Ok 5000) demo_Dir (λ c _, c) (λ _ _, None)
    (λ _ id, if bool_decide (id = 7) then Ok demo_config
             else Err "no such stack")
    (λ _ _, None).

(** The same as [demo_env], but the sleep interval does not parse. *)
Definition broken_env : Env :=
  mkEnv "/data" "5 seconds" (λ _, Err "time: unknown unit") demo_Dir
    (λ c _, c) (λ _ _, None) (λ _ _, Ok demo_config) (λ _ _, None).

Definition demo_manager (kind : engineType) (m : gmap Z edgeStack) : World :=
  mkWorld (mkStackManager kind m (Some ()) None true "/assets") [] 1.

(** An enabled manager for Docker standalone with an empty table. *)
Definition demo_world : World := demo_manager EngineTypeDockerStandalone ∅.

Definition demo_stack (action : edgeStackAction) (status : edgeStackStatus)
    (retries : Z) : edgeStack :=
  mkEdgeStack 7 "web" 1 "/data/7" "docker-compose.yml" status action
    demo_credentials "" true false retries.

(** The same manager once it holds stack 7. *)
Definition demo_world_7 (action : edgeStackAction) (status : edgeStackStatus)
    (retries : Z) : World :=
  demo_manager EngineTypeDockerStandalone
    {[7 := demo_stack action status retries]}.

Definition demo_snapshot : gmap Z Z := {[7 := 1; 8 := 1]}.




(** A stack that does not ask for its images to be pulled. *)
Definition plain_stack (id : Z) (action : edgeStackAction)
    (status : edgeStackStatus) (version : Z) : edgeStack :=
  mkEdgeStack id "db" version "/data/db" "docker-compose.yml" status action
    [] "" false false 0.

(** A manager that holds one plain stack, number 8. *)
Definition plain_world (action : edgeStackAction) (status : edgeStackStatus)
    (version : Z) : World :=
  demo_manager EngineTypeDockerStandalone
    {[8 := plain_stack 8 action status version]}.

(** Stack 7 has used up its retries; stack 8 is waiting to be deployed. *)
Definition mixed_world : World :=
  demo_manager EngineTypeDockerStandalone
    {[7 := demo_stack actionIdle StatusError 120960;
      8 := plain_stack 8 actionDeploy StatusPending 1]}.

(** Two plain stacks are waiting; stack 7 has been deployed. *)
Definition queue_world : World :=
  demo_manager EngineTypeDockerStandalone
    {[7 := demo_stack actionIdle StatusDone 4;
      8 := plain_stack 8 actionDeploy StatusPending 1;
      9 := plain_stack 9 actionUpdate StatusPending 3]}.

(** A manager that has not been started. *)
Definition fresh_world : World := mkWorld (NewStackManager "/assets") [] 0.

(** The same as [demo_env], but the coordinator does not answer. *)
Definition silent_env : Env :=
  mkEnv "/data" "5s" (λ _, Ok 5000) demo_Dir (λ c _, c) (λ _ _, None)
    (λ _ _, Err "coordinator unreachable") (λ _ _, None).

(** The same as [demo_env], but no deployer can be built for Nomad. *)
Definition nomadless_env : Env :=
  mkEnv "/data" "5s" (λ _, Ok 5000) demo_Dir (λ c _, c)
    (λ _ kind, if decide (kind = EngineTypeNomad)
               then Some "nomad: no address" else None)
    (λ _ _, Ok demo_config) (λ _ _, None).

(** Version 2 of stack 7, pushed out of band. *)
Definition demo_push : EdgeStackData.t :=
  EdgeStackData.mk 7 2 "web" "services: {}" [] false false.


(** * Properties *)

(** ** Elementary facts *)

Lemma table_set_stacks m w : table (set_stacks m w) = m.
Proof. reflexivity. Qed.

Lemma table_poke k s w : table (poke k s w) = <[k := s]> (table w).
Proof. reflexivity. Qed.

Lemma table_log c w : table (log c w) = table w.
Proof. reflexivity. Qed.

Lemma calls_poke k s w : calls (poke k s w) = calls w.
Proof. reflexivity. Qed.

Lemma calls_set_stacks m w : calls (set_stacks m w) = calls w.
Proof. reflexivity. Qed.

Lemma poke_poke k s1 s2 w : poke k s2 (poke k s1 w) = poke k s2 w.
Proof.
  unfold poke. rewrite table_set_stacks, insert_insert_eq. reflexivity.
Qed.

Lemma firstPending_Some order m j :
  firstPending order m = Some j →
  ∃ s, m !! j = Some s ∧ Status s = StatusPending.
Proof.
  induction order as [|i order IH]; cbn; [done|].
  destruct (m !! i) as [s|] eqn:Hs; [|done].
  case_decide; [|done]. intros [= <-]. by exists s.
Qed.

Lemma int_add_small (x : Z) :
  int_min ≤ x < int_max → int_add x 1 = x + 1.
Proof.
  unfold int_add, int_wrap, int_min, int_max. intros Hx.
  rewrite Z.mod_small by lia. lia.
Qed.

Lemma rem_mod_zero (a b : Z) : b ≠ 0 → Z.rem a b = 0 ↔ a `mod` b = 0.
Proof.
  intros Hb. rewrite Z.rem_divide, Z.mod_divide by done. reflexivity.
Qed.

Section Reconciler.

Variable E : Env.

Lemma processStack_unchanged w stackID version s :
  table w !! stackID = Some s → Version s = version →
  processStack E stackID version w = (None, w).
Proof.
  intros Hs Hv. unfold processStack. rewrite Hs.
  rewrite bool_decide_eq_true_2 by done. reflexivity.
Qed.

(** What [processStack] has changed when it stops at a failed fetch. *)
Lemma processStack_fetch_failed w stackID version err :
  match table w !! stackID with
  | Some s => Version s ≠ version
             ∧ config_of E (calls w) (ID s) = Err err
  | None => config_of E (calls w) stackID = Err err
  end →
  processStack E stackID version w =
    (Some err,
     log (GetEdgeStackConfig
            (match table w !! stackID with Some s => ID s | None => stackID end))
       (match table w !! stackID with
        | Some s =>
            poke stackID
              (set_Status StatusPending
                 (set_Version version (set_Action actionUpdate s))) w
        | None => w
        end)).
Proof.
  unfold processStack. destruct (table w !! stackID) as [s|] eqn:Hs.
  - intros [Hv Hc]. rewrite bool_decide_eq_false_2 by done.
    cbn. rewrite Hc. reflexivity.
  - intros Hc. cbn. rewrite Hc. reflexivity.
Qed.

(** A known stack whose new configuration could not be fetched already
    carries the new version, action [Update] and status [Pending]: the same
    entry in the next snapshot finds the stack unchanged and is not
    processed again. *)
Lemma processStack_failed_not_retried w stackID version s err :
  table w !! stackID = Some s → ID s = stackID → Version s ≠ version →
  config_of E (calls w) stackID = Err err →
  ∃ w1,
    processStack E stackID version w = (Some err, w1)
    ∧ table w1 !! stackID
      = Some (set_Status StatusPending
                (set_Version version (set_Action actionUpdate s)))
    ∧ processStack E stackID version w1 = (None, w1).
Proof.
  intros Hs Hid Hv Hc. eexists. split; [|split].
  - apply processStack_fetch_failed. rewrite Hs, Hid. done.
  - rewrite Hs, table_log, table_poke. apply lookup_insert_eq.
  - apply processStack_unchanged
      with (set_Status StatusPending
              (set_Version version (set_Action actionUpdate s))); [|done].
    rewrite Hs, table_log, table_poke. apply lookup_insert_eq.
Qed.

(** The three outcomes of [processStack] once the configuration has been
    fetched, for a stack that is new to the table ... *)
Lemma processStack_deploy w stackID version c :
  table w !! stackID = None →
  config_of E (calls w) stackID = Ok c →
  let kind := engine (manager w) in
  let wr :=
    writeManifest E kind stackID (EdgeStackConfig.Name c)
      (EdgeStackConfig.FileContent c) (EdgeStackConfig.RegistryCredentials c) in
  let r :=
    configured E kind stackID version actionDeploy c
      (new_edgeStack stackID actionDeploy StatusPending version) in
  processStack E stackID version w =
    match error_of E (calls w ++ [GetEdgeStackConfig stackID]) wr with
    | Some err => (Some err, log wr (log (GetEdgeStackConfig stackID) w))
    | None =>
        call E
          (SetEdgeStackStatus stackID portainer.EdgeStackStatusAcknowledged "")
          (poke stackID r (log wr (log (GetEdgeStackConfig stackID) w)))
    end.
Proof.
  intros Hs Hc kind wr r. unfold processStack. rewrite Hs. cbn. rewrite Hc.
  subst wr r. unfold writeManifest, manifestContent, manifestFileName, manifestFolder.
  unfold configured, manifestFolder.
  fold kind.
  destruct kind, (EdgeStackConfig.RegistryCredentials c) eqn:Hcr;
    repeat case_decide; try done; cbn; rewrite ?Hcr;
    match goal with
    | |- context [error_of E ?h ?x] => destruct (error_of E h x)
    end; reflexivity.
Qed.

(** ... and for a stack that the table holds with another version. *)
Lemma processStack_update w stackID version s c :
  table w !! stackID = Some s →
  ID s = stackID →
  Version s ≠ version →
  config_of E (calls w) stackID = Ok c →
  let kind := engine (manager w) in
  let wr :=
    writeManifest E kind stackID (EdgeStackConfig.Name c)
      (EdgeStackConfig.FileContent c) (EdgeStackConfig.RegistryCredentials c) in
  let r := configured E kind stackID version actionUpdate c s in
  processStack E stackID version w =
    match error_of E (calls w ++ [GetEdgeStackConfig stackID]) wr with
    | Some err =>
        (Some err,
         poke stackID
           (set_FileName (FileName s) (set_FileFolder (FileFolder s) r))
           (log wr (log (GetEdgeStackConfig stackID) w)))
    | None =>
        call E
          (SetEdgeStackStatus stackID portainer.EdgeStackStatusAcknowledged "")
          (poke stackID r (log wr (log (GetEdgeStackConfig stackID) w)))
    end.
Proof.
  intros Hs Hid Hv Hc kind wr r. subst stackID wr r.
  unfold processStack. rewrite Hs.
  rewrite bool_decide_eq_false_2 by done. cbn. rewrite Hc.
  unfold writeManifest, manifestContent, manifestFileName, manifestFolder.
  unfold configured, manifestFolder.
  fold kind.
  destruct kind, (EdgeStackConfig.RegistryCredentials c) eqn:Hcr;
    repeat case_decide; try done; cbn; rewrite ?Hcr;
    match goal with
    | |- context [error_of E ?h ?x] => destruct (error_of E h x)
    end; unfold call, poke, set_stacks, log, table; cbn;
    rewrite ?insert_insert_eq; reflexivity.
Qed.

(** C1.  What [processStack] does with one entry [(stackID, version)] of a
    snapshot, when the coordinator delivers the configuration [c] and the
    manifest can be written.

    - The identifier is not in the table: the configuration is fetched, the
      manifest is written, a record with action [Deploy], status [Pending],
      the given version and the fetched fields is inserted, and
      [Acknowledged] is reported; these are the only three calls.
    - The identifier is in the table with the same version: nothing changes
      and nothing is called.
    - The identifier is in the table with another version: the configuration
      is fetched again, the manifest is written again, the record gets
      action [Update], status [Pending], the new version and the fetched
      fields (its retry counter stays), and [Acknowledged] is reported.

    In the first and the last case [processStack] returns what the
    [Acknowledged] report returns. *)
Theorem processStack_entry (w : World) (stackID version : Z) :
  let kind := engine (manager w) in
  let fetch := GetEdgeStackConfig stackID in
  let ack :=
    SetEdgeStackStatus stackID portainer.EdgeStackStatusAcknowledged "" in
  (table w !! stackID = None →
   ∀ c,
     let wr :=
       writeManifest E kind stackID (EdgeStackConfig.Name c)
         (EdgeStackConfig.FileContent c)
         (EdgeStackConfig.RegistryCredentials c) in
     config_of E (calls w) stackID = Ok c →
     error_of E (calls w ++ [fetch]) wr = None →
     ∃ w',
       processStack E stackID version w
         = (error_of E (calls w ++ [fetch; wr]) ack, w')
       ∧ table w' =
           <[stackID :=
               mkEdgeStack stackID (EdgeStackConfig.Name c) version
                 (manifestFolder E stackID)
                 (manifestFileName kind (EdgeStackConfig.Name c))
                 StatusPending actionDeploy
                 (EdgeStackConfig.RegistryCredentials c)
                 (EdgeStackConfig.Namespace c)
                 (EdgeStackConfig.PrePullImage c)
                 (EdgeStackConfig.RePullImage c) 0]> (table w)
       ∧ calls w' = calls w ++ [fetch; wr; ack])
  ∧ (∀ s,
       table w !! stackID = Some s → Version s = version →
       processStack E stackID version w = (None, w))
  ∧ (∀ s,
       table w !! stackID = Some s → ID s = stackID → Version s ≠ version →
       ∀ c,
         let wr :=
           writeManifest E kind stackID (EdgeStackConfig.Name c)
             (EdgeStackConfig.FileContent c)
             (EdgeStackConfig.RegistryCredentials c) in
         config_of E (calls w) stackID = Ok c →
         error_of E (calls w ++ [fetch]) wr = None →
         ∃ w',
           processStack E stackID version w
             = (error_of E (calls w ++ [fetch; wr]) ack, w')
           ∧ table w' =
               <[stackID :=
                   mkEdgeStack stackID (EdgeStackConfig.Name c) version
                     (manifestFolder E stackID)
                     (manifestFileName kind (EdgeStackConfig.Name c))
                     StatusPending actionUpdate
                     (EdgeStackConfig.RegistryCredentials c)
                     (EdgeStackConfig.Namespace c)
                     (EdgeStackConfig.PrePullImage c)
                     (EdgeStackConfig.RePullImage c) (Retries s)]> (table w)
           ∧ calls w' = calls w ++ [fetch; wr; ack]).
Proof.
  intros kind fetch ack. split; [|split].
  - intros Hs c wr Hc Hw.
    rewrite (processStack_deploy _ _ _ _ Hs Hc). fold kind wr fetch.
    rewrite Hw. eexists. split; [|split].
    + unfold call. f_equal. cbn. by rewrite <- app_assoc.
    + reflexivity.
    + cbn. by rewrite <- !app_assoc.
  - intros s Hs Hv. by eapply processStack_unchanged.
  - intros s Hs Hid Hv c wr Hc Hw.
    rewrite (processStack_update _ _ _ _ _ Hs Hid Hv Hc). fold kind wr fetch.
    rewrite Hw. eexists. split; [|split].
    + unfold call. f_equal. cbn. by rewrite <- app_assoc.
    + cbn. unfold configured. by rewrite Hid.
    + cbn. by rewrite <- !app_assoc.
Qed.

(** Whatever its outcome, [processStack] changes the table at most at
    [stackID], where it leaves a pending [Deploy] or [Update], and only
    adds calls. *)
Lemma processStack_effect w stackID version :
  (∀ s, table w !! stackID = Some s → ID s = stackID) →
  ∀ err w', processStack E stackID version w = (err, w') →
  (table w' = table w
   ∨ ∃ r, table w' = <[stackID := r]> (table w)
          ∧ ID r = stackID ∧ Status r = StatusPending
          ∧ (Action r = actionDeploy ∨ Action r = actionUpdate))
  ∧ (∃ cs, calls w' = calls w ++ cs)
  ∧ lifecycle w' = lifecycle w.
Proof.
  intros Hwf err w'. unfold processStack.
  destruct (table w !! stackID) as [s|] eqn:Hs.
  - specialize (Hwf s eq_refl). case_bool_decide.
    + intros [= <- <-]. split; [by left|]. split; [by exists []; rewrite app_nil_r|done].
    + cbn. destruct (config_of E (calls w) (ID s)); cbn.
      * repeat case_decide;
          match goal with
          | |- context [error_of E ?h ?x] => destruct (error_of E h x)
          end; intros [= <- <-]; cbn;
          unfold poke, set_stacks, log, table; cbn;
          rewrite ?Hwf, ?insert_insert_eq;
          (split; [right; eexists; split; [reflexivity|by auto]|]);
          (split; [|done]); rewrite <- ?app_assoc; by eexists.
      * intros [= <- <-]. cbn. split; [|split; [by eexists|done]].
        right. eexists. split; [reflexivity|]. by auto.
  - cbn. destruct (config_of E (calls w) stackID); cbn.
    + repeat case_decide;
        match goal with
        | |- context [error_of E ?h ?x] => destruct (error_of E h x)
        end; intros [= <- <-]; cbn;
        unfold poke, set_stacks, log, table; cbn;
        (split; [first [by left | right; eexists; split; [reflexivity|by auto]]|]);
        (split; [|done]); rewrite <- ?app_assoc; by eexists.
    + intros [= <- <-]. cbn. split; [by left|]. split; [by eexists|done].
Qed.

Lemma processStack_frame w stackID version k :
  (∀ s, table w !! stackID = Some s → ID s = stackID) →
  k ≠ stackID →
  table (processStack E stackID version w).2 !! k = table w !! k.
Proof.
  intros Hwf Hk.
  destruct (processStack E stackID version w) as [err w'] eqn:Hp.
  cbn.
  destruct (processStack_effect _ _ _ Hwf _ _ Hp) as ([Ht|(r & Ht & _)] & _);
    rewrite Ht; [done|]. by rewrite lookup_insert_ne.
Qed.

Lemma processStacks_app poll pre post w :
  processStacks E poll (pre ++ post) w =
    match processStacks E poll pre w with
    | (Some err, w1) => (Some err, w1)
    | (None, w1) => processStacks E poll post w1
    end.
Proof.
  revert w. induction pre as [|k pre IH]; intros w; cbn; [done|].
  destruct (poll !! k); [|by apply IH].
  destruct (processStack E k z w) as [[err|] w1]; [done|]. apply IH.
Qed.

(** C6.  The manager is enabled, the loop of [UpdateStacksStatus] has gone
    through the entries [pre] without an error and has reached world [w1],
    and for the next entry [(stackID, version)] the coordinator refuses the
    configuration, or the manifest cannot be written, with error [err].
    Then [UpdateStacksStatus] returns exactly [err].  The world it leaves is
    [w1], the one in which the entries of [pre] are committed, but for the
    record at [stackID] and for the failed fetch (and write) at the end of
    the calls: no entry of [post] has been looked at, and no record has been
    marked for deletion. *)
Theorem UpdateStacksStatus_aborts (w w1 : World) (pollResponseStacks : gmap Z Z)
    (pre post : list Z) (stackID version : Z) (err : error) :
  let fetch := GetEdgeStackConfig stackID in
  let wr c :=
    writeManifest E (engine (manager w1)) stackID (EdgeStackConfig.Name c)
      (EdgeStackConfig.FileContent c) (EdgeStackConfig.RegistryCredentials c) in
  isEnabled (manager w) = true →
  processStacks E pollResponseStacks pre w = (None, w1) →
  pollResponseStacks !! stackID = Some version →
  (∀ s, table w1 !! stackID = Some s → ID s = stackID ∧ Version s ≠ version) →
  (config_of E (calls w1) stackID = Err err
   ∨ ∃ c, config_of E (calls w1) stackID = Ok c
          ∧ error_of E (calls w1 ++ [fetch]) (wr c) = Some err) →
  ∃ w2,
    UpdateStacksStatus E pollResponseStacks (pre ++ stackID :: post) w
      = (Some err, w2)
    ∧ (∀ k, k ≠ stackID → table w2 !! k = table w1 !! k)
    ∧ (calls w2 = calls w1 ++ [fetch]
       ∨ ∃ c, calls w2 = calls w1 ++ [fetch; wr c])
    ∧ lifecycle w2 = lifecycle w1.
Proof.
  intros fetch wr Hen Hpre Hpoll Hrec Hfail.
  assert (Hwf : ∀ s, table w1 !! stackID = Some s → ID s = stackID)
    by (intros s Hs; by apply Hrec).
  assert (∃ w2, processStack E stackID version w1 = (Some err, w2)
                ∧ (calls w2 = calls w1 ++ [fetch]
                   ∨ ∃ c, calls w2 = calls w1 ++ [fetch; wr c]))
    as (w2 & Hp & Hcalls).
  { destruct Hfail as [Hc|(c & Hc & Hw)].
    - eexists. split; [|left].
      + apply processStack_fetch_failed.
        destruct (table w1 !! stackID) as [s|] eqn:Hs; [|done].
        destruct (Hrec s eq_refl) as [-> ?]. done.
      + destruct (table w1 !! stackID) as [s|] eqn:Hs; [|done].
        destruct (Hrec s eq_refl) as [Hid ?]. by rewrite Hid.
    - destruct (table w1 !! stackID) as [s|] eqn:Hs.
      + destruct (Hrec s eq_refl) as [Hid Hv].
        rewrite (processStack_update _ _ _ _ _ Hs Hid Hv Hc).
        fold fetch (wr c). rewrite Hw. eexists. split; [done|].
        right. exists c. cbn. by rewrite <- app_assoc.
      + rewrite (processStack_deploy _ _ _ _ Hs Hc).
        fold fetch (wr c). rewrite Hw. eexists. split; [done|].
        right. exists c. cbn. by rewrite <- app_assoc. }
  exists w2. split; [|split; [|split]]; [| | done |].
  - unfold UpdateStacksStatus. rewrite Hen. cbn [negb].
    rewrite processStacks_app, Hpre. cbn. by rewrite Hpoll, Hp.
  - intros k Hk. by rewrite <- (processStack_frame w1 stackID version k), Hp.
  - by destruct (processStack_effect _ _ _ Hwf _ _ Hp) as (_ & _ & ?).
Qed.

End Reconciler.

Section Worker.

Variable E : Env.

Lemma attempts_spec retries :
  attempts retries = true
  ↔ retries ≤ RetryInterval ∨ retries `mod` RetryInterval = 0.
Proof.
  unfold attempts. rewrite orb_true_iff, !bool_decide_eq_true.
  by rewrite rem_mod_zero.
Qed.

(** [pullImages] with its writes to the record collected. *)
Lemma pullImages_eq w stack n l s :
  table w !! stack = Some s →
  pullImages E stack n l w =
    if PrePullImage s || RePullImage s then
      let s1 := set_Retries (int_add (Retries s) 1) s in
      if attempts (Retries s1) then
        let w1 := log (Pull stack n [l]) w in
        match error_of E (calls w) (Pull stack n [l]) with
        | None =>
            (None,
             log (SetEdgeStackStatus (ID s)
                    portainer.EdgeStackStatusImagesPulled "")
               (poke stack
                  (set_Action actionIdle (set_Status StatusDeploying s1)) w1))
        | Some err =>
            if bool_decide (Retries s1 < MaxRetries) then
              (Some err, poke stack (set_Status StatusRetry s1) w1)
            else
              (Some err,
               log (SetEdgeStackStatus (ID s)
                      portainer.EdgeStackStatusError err)
                 (poke stack (set_Status StatusError s1) w1))
        end
      else (Some "skip pulling", poke stack s1 w)
    else (None, w).
Proof.
  intros Hs. unfold pullImages, attempts. rewrite Hs.
  destruct (PrePullImage s || RePullImage s); [|done]. cbn.
  destruct (_ || _); [|done].
  unfold call. cbn.
  destruct (error_of E (calls w) (Pull stack n [l])) as [err|]; cbn.
  - case_bool_decide; unfold poke, set_stacks, log, table; cbn;
      by rewrite !insert_insert_eq.
  - unfold poke, set_stacks, log, table; cbn. by rewrite !insert_insert_eq.
Qed.

(** [deployStack] likewise, for a record that sits under its own
    identifier. *)
Lemma deployStack_eq w stack n l s :
  table w !! stack = Some s → ID s = stack →
  deployStack E stack n l w =
    let dp := Deploy stack n [l] (Namespace s) in
    let s1 := set_Action actionIdle s in
    match error_of E (calls w) dp with
    | Some err =>
        log (SetEdgeStackStatus stack portainer.EdgeStackStatusError err)
          (log dp (poke stack (set_Status StatusError s1) w))
    | None =>
        log (SetEdgeStackStatus stack portainer.EdgeStackStatusOk "")
          (log dp (poke stack (set_Status StatusDone s1) w))
    end.
Proof.
  intros Hs Hid. unfold deployStack. rewrite Hs. unfold call. cbn.
  destruct (error_of E (calls w) _) as [err|]; cbn; rewrite Hid;
    unfold poke, set_stacks, log, table; cbn; by rewrite !insert_insert_eq.
Qed.

(** [deployStack] does not touch the retry counter. *)
Lemma deployStack_Retries w stack n l s :
  table w !! stack = Some s →
  Retries <$> table (deployStack E stack n l w) !! stack = Some (Retries s).
Proof.
  intros Hs. unfold deployStack. rewrite Hs. unfold call. cbn.
  destruct (error_of E (calls w) _) as [err|]; cbn;
    (destruct (decide (ID s = stack)) as [->|Hne];
     [by rewrite lookup_insert_eq
     |by rewrite lookup_insert_ne, lookup_insert_eq]).
Qed.

(** The turn of the worker on a stack that is due for deployment. *)
Lemma workerIteration_deploy order w stack s :
  firstPending order (table w) = Some stack →
  table w !! stack = Some s →
  Action s = actionDeploy ∨ Action s = actionUpdate →
  workerIteration E order w =
    let n := "edge_" +:+ Name s in
    let l := FileFolder s +:+ "/" +:+ FileName s in
    match pullImages E stack n l w with
    | (None, w1) => deployStack E stack n l w1
    | (Some _, w1) => w1
    end.
Proof.
  intros Hf Hs Ha. unfold workerIteration, nextPendingStack.
  rewrite Hf, Hs.
  replace (bool_decide (Action s = actionDeploy)
           || bool_decide (Action s = actionUpdate)) with true.
  - by destruct (pullImages _ _ _ _ _) as [[?|] ?].
  - symmetry. apply orb_true_iff.
    destruct Ha; [left|right]; by apply bool_decide_eq_true.
Qed.

(** C2.  The worker has picked the pending stack [stack], whose action is
    [Deploy] or [Update] and which asks for its images to be pulled.  In its
    turn the retry counter is incremented ([retries] is the new value).  If
    [retries] is beyond [RetryInterval] and not a multiple of it, nothing is
    called (neither [Pull] nor [Deploy], and nothing is reported) and only
    the counter changes.  Otherwise [Pull] is called, and if it fails: with
    [retries < MaxRetries] the status becomes [Retry] and [Pull] is the only
    call; with [retries ≥ MaxRetries] the status becomes [Error] and the
    only further call reports [Error] with the text of the error.  In none
    of these cases is [Deploy] called. *)
Theorem pull_phase (order : list Z) (w : World) (stack : Z) (s : edgeStack) :
  firstPending order (table w) = Some stack →
  table w !! stack = Some s →
  Action s = actionDeploy ∨ Action s = actionUpdate →
  PrePullImage s = true ∨ RePullImage s = true →
  let retries := int_add (Retries s) 1 in
  let pull :=
    Pull stack ("edge_" +:+ Name s) [FileFolder s +:+ "/" +:+ FileName s] in
  let w' := workerIteration E order w in
  (int_min ≤ Retries s < int_max → retries = Retries s + 1)
  ∧ Retries <$> table w' !! stack = Some retries
  ∧ (retries ≤ RetryInterval ∨ retries `mod` RetryInterval = 0 →
     ∀ err, error_of E (calls w) pull = Some err →
       (retries < MaxRetries →
        table w' = <[stack := set_Status StatusRetry (set_Retries retries s)]>
                     (table w)
        ∧ calls w' = calls w ++ [pull])
       ∧ (MaxRetries ≤ retries →
          table w' = <[stack := set_Status StatusError (set_Retries retries s)]>
                       (table w)
          ∧ calls w' =
              calls w ++
              [pull;
               SetEdgeStackStatus (ID s) portainer.EdgeStackStatusError err]))
  ∧ (¬ (retries ≤ RetryInterval ∨ retries `mod` RetryInterval = 0) →
     table w' = <[stack := set_Retries retries s]> (table w)
     ∧ calls w' = calls w).
Proof.
  intros Hf Hs Ha Hp retries pull w'.
  assert (Hw' : w' =
    match pullImages E stack ("edge_" +:+ Name s)
            (FileFolder s +:+ "/" +:+ FileName s) w with
    | (None, w1) =>
        deployStack E stack ("edge_" +:+ Name s)
          (FileFolder s +:+ "/" +:+ FileName s) w1
    | (Some _, w1) => w1
    end) by (by apply workerIteration_deploy).
  rewrite (pullImages_eq _ _ _ _ _ Hs) in Hw'.
  replace (PrePullImage s || RePullImage s) with true in Hw'
    by (symmetry; apply orb_true_iff; tauto).
  cbn zeta in Hw'. change (Retries (set_Retries _ s)) with retries in Hw'.
  fold pull in Hw'.
  pose proof (attempts_spec retries) as Hatt.
  split; [by apply int_add_small|].
  destruct (attempts retries) eqn:Hat.
  - destruct (error_of E (calls w) pull) as [err|] eqn:Herr.
    + split.
      { rewrite Hw'. case_bool_decide; cbn; by rewrite lookup_insert_eq. }
      split; [|intros Hn; exfalso; apply Hn; by apply Hatt].
      intros _ err' [= <-]. split; intros Hr.
      * rewrite Hw', bool_decide_eq_true_2 by done. done.
      * rewrite Hw', bool_decide_eq_false_2 by lia. cbn.
        by rewrite <- app_assoc.
    + split.
      { rewrite Hw'.
        erewrite deployStack_Retries by (cbn; apply lookup_insert_eq).
        done. }
      split; [intros _ err'; congruence|].
      intros Hn; exfalso; apply Hn; by apply Hatt.
  - assert (Hn : ¬ (retries ≤ RetryInterval ∨ retries `mod` RetryInterval = 0))
      by (intros H; apply Hatt in H; congruence).
    split; [rewrite Hw'; cbn; by rewrite lookup_insert_eq|].
    split; [tauto|]. intros _. by rewrite Hw'.
Qed.

(** The turn of the worker on a stack that is marked for deletion. *)
Lemma workerIteration_delete order w stack s :
  firstPending order (table w) = Some stack →
  table w !! stack = Some s →
  Action s = actionDelete →
  workerIteration E order w =
    deleteStack E stack ("edge_" +:+ Name s)
      (FileFolder s +:+ "/" +:+ FileName s) w.
Proof.
  intros Hf Hs Ha. unfold workerIteration, nextPendingStack.
  rewrite Hf, Hs, Ha. reflexivity.
Qed.

(** C7.  The worker has picked the pending stack [stack], whose action is
    [Delete].  It calls [Remove] of the deployer, then [os.RemoveAll] on the
    directory of the manifest, then [DeleteEdgeStackStatus], each only if
    the one before has succeeded, and nothing else.  The record leaves the
    table if and only if all three succeed; otherwise the table is left as
    it was. *)
Theorem delete_phase (order : list Z) (w : World) (stack : Z) (s : edgeStack) :
  firstPending order (table w) = Some stack →
  table w !! stack = Some s →
  ID s = stack →
  Action s = actionDelete →
  let location := FileFolder s +:+ "/" +:+ FileName s in
  let rm := Remove stack ("edge_" +:+ Name s) [location] in
  let rmdir := RemoveAll (filepath_Dir E location) in
  let forget := DeleteEdgeStackStatus stack in
  let removed := error_of E (calls w) rm = None in
  let cleaned := error_of E (calls w ++ [rm]) rmdir = None in
  let forgotten := error_of E (calls w ++ [rm; rmdir]) forget = None in
  let w' := workerIteration E order w in
  (table w' !! stack = None ↔ removed ∧ cleaned ∧ forgotten)
  ∧ (removed ∧ cleaned ∧ forgotten →
     table w' = delete stack (table w)
     ∧ calls w' = calls w ++ [rm; rmdir; forget])
  ∧ (¬ (removed ∧ cleaned ∧ forgotten) →
     table w' = table w
     ∧ (calls w' = calls w ++ [rm] ∧ ¬ removed
        ∨ calls w' = calls w ++ [rm; rmdir] ∧ removed ∧ ¬ cleaned
        ∨ calls w' = calls w ++ [rm; rmdir; forget]
          ∧ removed ∧ cleaned ∧ ¬ forgotten)).
Proof.
  intros Hf Hs Hid Ha location rm rmdir forget removed cleaned forgotten w'.
  assert (Hw' : w' = deleteStack E stack ("edge_" +:+ Name s) location w)
    by (by apply workerIteration_delete).
  unfold deleteStack, call in Hw'. rewrite Hs, Hid in Hw'. cbn in Hw'.
  fold rm rmdir forget in Hw'. rewrite <- !app_assoc in Hw'. cbn in Hw'.
  subst removed cleaned forgotten.
  destruct (error_of E (calls w) rm) as [e1|].
  { rewrite Hw', !table_log, Hs. cbn.
    split; [split; [done|by intros [? _]]|].
    split; [by intros [? _]|]. intros _. split; [done|]. left. done. }
  destruct (error_of E (calls w ++ [rm]) rmdir) as [e2|].
  { rewrite Hw', !table_log, Hs. cbn. rewrite <- app_assoc.
    split; [split; [done|by intros (_ & ? & _)]|].
    split; [by intros (_ & ? & _)|]. intros _. split; [done|].
    right. left. done. }
  destruct (error_of E (calls w ++ [rm; rmdir]) forget) as [e3|].
  { rewrite Hw', !table_log, Hs. cbn. rewrite <- !app_assoc.
    split; [split; [done|by intros (_ & _ & ?)]|].
    split; [by intros (_ & _ & ?)|]. intros _. split; [done|].
    right. right. done. }
  rewrite Hw', table_set_stacks, !table_log, lookup_delete_eq. cbn.
  rewrite <- !app_assoc.
  split; [done|]. split; [done|]. intros Hn. by destruct Hn.
Qed.

End Worker.

Section Queries.

Lemma range_of_elem {V} (m : gmap Z V) (order : list Z) (k : Z) :
  range_of m order → k ∈ order ↔ is_Some (m !! k).
Proof.
  unfold range_of. intros ->. rewrite list_elem_of_fmap. split.
  - intros ([k' v] & -> & Hin). apply elem_of_map_to_list in Hin. by exists v.
  - intros [v Hv]. exists (k, v). split; [done|]. by apply elem_of_map_to_list.
Qed.

(** The loop returns the credentials of the first record of [order] that is
    being deployed, and nil if [order] has none. *)
Lemma GetEdgeRegistryCredentials_first (order : list Z) (w : World) :
  (∃ k s, k ∈ order ∧ table w !! k = Some s ∧ Status s = StatusDeploying
          ∧ GetEdgeRegistryCredentials order w = RegistryCredentials s)
  ∨ ((∀ k s, k ∈ order → table w !! k = Some s → Status s ≠ StatusDeploying)
     ∧ GetEdgeRegistryCredentials order w = []).
Proof.
  induction order as [|k order IH]; cbn.
  - right. split; [|done]. intros k s Hk. by apply elem_of_nil in Hk.
  - destruct (table w !! k) as [s|] eqn:Hs.
    + case_decide as Hd.
      * left. exists k, s. split; [by left|done].
      * destruct IH as [(k' & s' & Hin & ?)|[Hnone ->]].
        { left. exists k', s'. split; [by right|done]. }
        right. split; [|done]. intros k' s' [->|Hin]%elem_of_cons Hs'.
        -- by simplify_eq.
        -- by eapply Hnone.
    + destruct IH as [(k' & s' & Hin & ?)|[Hnone ->]].
      { left. exists k', s'. split; [by right|done]. }
      right. split; [|done]. intros k' s' [->|Hin]%elem_of_cons Hs'.
      -- by simplify_eq.
      -- by eapply Hnone.
Qed.

(** C8.  For every order in which the map may be traversed:
    [GetEdgeRegistryCredentials] returns a non-empty list only if some
    record of the table has status [Deploying]; if some record has it, the
    result is the credential list of a record with status [Deploying]; and if
    no record has it, the result is nil. *)
Theorem GetEdgeRegistryCredentials_deploying (order : list Z) (w : World) :
  range_of (table w) order →
  let deploying k s := table w !! k = Some s ∧ Status s = StatusDeploying in
  (GetEdgeRegistryCredentials order w ≠ [] → ∃ k s, deploying k s)
  ∧ ((∃ k s, deploying k s) →
     ∃ k s, deploying k s
            ∧ GetEdgeRegistryCredentials order w = RegistryCredentials s)
  ∧ ((∀ k s, ¬ deploying k s) → GetEdgeRegistryCredentials order w = []).
Proof.
  intros Hrange deploying.
  destruct (GetEdgeRegistryCredentials_first order w)
    as [(k & s & Hin & Hs & Hd & Heq)|[Hnone Heq]].
  - split; [intros _; by exists k, s|].
    split; [intros _; by exists k, s|].
    intros Hno. by destruct (Hno k s).
  - split; [by rewrite Heq|]. split; [|done].
    intros (k & s & Hs & Hd). exfalso. eapply (Hnone k s); [|done..].
    apply (range_of_elem _ _ _ Hrange). by exists s.
Qed.

End Queries.

Section Lifecycle.

Variable E : Env.

(** [processStack] either returns at once, leaving the world as it is, or
    asks the coordinator for the configuration. *)
Lemma processStack_calls w stackID version :
  (∃ s, table w !! stackID = Some s ∧ Version s = version
        ∧ processStack E stackID version w = (None, w))
  ∨ (length (calls w) <
       length (calls (processStack E stackID version w).2))%nat.
Proof.
  destruct (table w !! stackID) as [s|] eqn:Hs.
  - destruct (decide (Version s = version)) as [Hv|Hv].
    + left. exists s. split; [done|]. split; [done|].
      by apply processStack_unchanged with s.
    + right. unfold processStack. rewrite Hs.
      rewrite bool_decide_eq_false_2 by done. cbn.
      destruct (config_of E (calls w) (ID s)); cbn;
        [|rewrite length_app; cbn; lia].
      repeat case_decide;
        match goal with
        | |- context [error_of E ?h ?x] => destruct (error_of E h x)
        end; cbn; rewrite !length_app; cbn; lia.
  - right. unfold processStack. rewrite Hs. cbn.
    destruct (config_of E (calls w) stackID); cbn;
      [|rewrite length_app; cbn; lia].
    repeat case_decide;
      match goal with
      | |- context [error_of E ?h ?x] => destruct (error_of E h x)
      end; cbn; rewrite !length_app; cbn; lia.
Qed.

Lemma processStack_calls_le w stackID version :
  (length (calls w) ≤ length (calls (processStack E stackID version w).2))%nat.
Proof.
  destruct (processStack_calls w stackID version) as [(s & _ & _ & ->)|?];
    cbn; lia.
Qed.

Lemma processStacks_calls_le poll order w :
  (length (calls w) ≤ length (calls (processStacks E poll order w).2))%nat.
Proof.
  revert w. induction order as [|k order IH]; intros w; cbn; [lia|].
  destruct (poll !! k) as [v|]; [|by apply IH].
  pose proof (processStack_calls_le w k v) as Hle.
  destruct (processStack E k v w) as [[err|] w1]; cbn in *; [lia|].
  specialize (IH w1). lia.
Qed.

(** A snapshot that lists a stack which the table does not hold makes the
    loop of [UpdateStacksStatus] call the coordinator. *)
Lemma processStacks_calls poll order w k v :
  k ∈ order → poll !! k = Some v → table w !! k = None →
  (length (calls w) < length (calls (processStacks E poll order w).2))%nat.
Proof.
  revert w. induction order as [|k0 order IH]; intros w Hin Hk Hnone.
  { by apply elem_of_nil in Hin. }
  cbn. destruct (poll !! k0) as [v0|] eqn:Hk0.
  - destruct (processStack_calls w k0 v0) as [(s & Hs & _ & ->)|Hlt].
    + apply IH; [|done..].
      apply elem_of_cons in Hin as [->|Hin]; [congruence|done].
    + destruct (processStack E k0 v0 w) as [[err|] w1]; cbn in *; [done|].
      pose proof (processStacks_calls_le poll order w1). lia.
  - apply IH; [|done..].
    apply elem_of_cons in Hin as [->|Hin]; [congruence|done].
Qed.

(** C10.  [Start] is called on a manager that is not running, and the
    configured sleep interval does not parse.  [Start] returns the error of
    the parser; it has not launched a worker, and has changed nothing but
    the two fields it sets before it parses: the manager is now enabled and
    its stop channel is open.  Hence a second [Start] returns nil and
    changes nothing, so it launches no worker either; and
    [UpdateStacksStatus], which returns at once on a disabled manager, now
    goes through the snapshot: it calls the coordinator for any stack of
    the snapshot that the table does not hold. *)
Theorem Start_parse_error (w : World) (err : error) :
  stopSignal (manager w) = None →
  ParseDuration E (EdgeStackQueueSleepInterval E) = Err err →
  ∃ w1,
    Start E w = (Some err, w1)
    ∧ isEnabled (manager w1) = true
    ∧ stopSignal (manager w1) = Some ()
    ∧ workers w1 = workers w
    ∧ table w1 = table w ∧ calls w1 = calls w
    ∧ Start E w1 = (None, w1)
    ∧ (∀ poll order,
         isEnabled (manager w) = false →
         UpdateStacksStatus E poll order w = (None, w))
    ∧ (∀ poll order k v,
         k ∈ order → poll !! k = Some v → table w !! k = None →
         (length (calls w1)
          < length (calls (UpdateStacksStatus E poll order w1).2))%nat).
Proof.
  intros Hstop Hparse. eexists. unfold Start at 1. rewrite Hstop, Hparse.
  split; [reflexivity|]. repeat (split; [reflexivity|]).
  split.
  { intros poll order Hoff. unfold UpdateStacksStatus. by rewrite Hoff. }
  intros poll order k v Hin Hk Hnone.
  unfold UpdateStacksStatus. cbn [isEnabled manager set_lifecycle negb].
  pose proof
    (processStacks_calls poll order (set_lifecycle (Some ()) true w) k v
       Hin Hk Hnone) as Hlt.
  destruct (processStacks E poll order _) as [[e|] w2]; cbn in *; done.
Qed.

End Lifecycle.

Section Materializer.

Variable E : Env.



End Materializer.

(** ** Invariants of the table under interleaved operations *)

Section Invariants.

Variable E : Env.



Lemma idle_settled_pending s :
  Status s = StatusPending → Action s ≠ actionIdle → idle_settled s.
Proof. intros _ Ha Hi. done. Qed.




Lemma processRemovedStacks_lookup poll w k :
  table (processRemovedStacks poll w) !! k =
    (λ s, match poll !! k with
          | None => set_Status StatusPending (set_Action actionDelete s)
          | Some _ => s
          end) <$> table w !! k.
Proof.
  unfold processRemovedStacks. rewrite table_set_stacks, map_lookup_imap.
  by destruct (table w !! k).
Qed.











(** The turn of [workerIteration] is what the atomic steps of the worker
    amount to when nothing comes in between. *)
Lemma workerIteration_steps order w :
  ∃ n, (n ≤ 9)%nat
       ∧ run E (replicate n (OpWorker order)) (AtLoop, w)
         = (AtLoop, workerIteration E order w).
Proof.
  unfold workerIteration, nextPendingStack.
  destruct (firstPending order (table w)) as [j|] eqn:Hf.
  2:{ exists 1%nat. split; [lia|]. cbn -[String.append]. unfold nextPendingStack.
      by rewrite Hf. }
  destruct (firstPending_Some _ _ _ Hf) as (s & Hs & _). rewrite Hs.
  assert (Hnames : run E (replicate 2 (OpWorker order)) (AtLoop, w)
                   = (AtCheckDeploy j ("edge_" +:+ Name s)
                        (FileFolder s +:+ "/" +:+ FileName s), w)).
  { cbn -[String.append]. unfold nextPendingStack. rewrite Hf. cbn -[String.append]. by rewrite Hs. }
  assert (Hmore : ∀ n m sys,
            run E (replicate (n + m) (OpWorker order)) sys
            = run E (replicate m (OpWorker order))
                (run E (replicate n (OpWorker order)) sys)).
  { intros n m sys. unfold run. by rewrite replicate_add, foldl_app. }
  assert (Hlog : ∀ c, table (log c w) !! j = Some s) by done.
  assert (Hlog2 : ∀ c c', table (log c (log c' w)) !! j = Some s) by done.
  assert (Hlog3 : ∀ c c' c'', table (log c (log c' (log c'' w))) !! j = Some s)
    by done.
  destruct (bool_decide_reflect (Action s = actionDeploy)) as [HaD|HaD];
    [|destruct (bool_decide_reflect (Action s = actionUpdate)) as [HaU|HaU];
      [|destruct (bool_decide_reflect (Action s = actionDelete))
          as [HaX|HaX]]];
    cbn [orb].
  - (* Deploy *)
    destruct (pullImages E j _ _ w) as [[err|] w1] eqn:Hp;
      [exists (2 + 2)%nat|exists (2 + 3)%nat];
      (split; [lia|]); rewrite Hmore, Hnames;
      cbn [run foldl replicate step workerStep fst snd];
      rewrite Hs, bool_decide_eq_true_2 by done;
      cbn [fst snd workerStep]; rewrite Hp; by cbn [fst snd workerStep].
  - (* Update *)
    destruct (pullImages E j _ _ w) as [[err|] w1] eqn:Hp;
      [exists (2 + 3)%nat|exists (2 + 4)%nat];
      (split; [lia|]); rewrite Hmore, Hnames;
      cbn [run foldl replicate step workerStep fst snd];
      rewrite Hs, bool_decide_eq_false_2 by done;
      cbn [fst snd workerStep];
      rewrite Hs, bool_decide_eq_true_2 by done;
      cbn [fst snd workerStep]; rewrite Hp; by cbn [fst snd workerStep].
  - (* Delete *)
    assert (Hcheck :
      run E (replicate 3 (OpWorker order))
        (AtCheckDeploy j ("edge_" +:+ Name s)
           (FileFolder s +:+ "/" +:+ FileName s), w)
      = (AtRemove j ("edge_" +:+ Name s)
           (FileFolder s +:+ "/" +:+ FileName s), w)).
    { cbn [run foldl replicate step workerStep fst snd].
      rewrite Hs, bool_decide_eq_false_2 by done. cbn [fst snd workerStep].
      rewrite Hs, bool_decide_eq_false_2 by done. cbn [fst snd workerStep].
      by rewrite Hs, bool_decide_eq_true_2 by done. }
    unfold deleteStack, call. rewrite Hs.
    destruct (error_of E (calls w) _) as [e1|] eqn:H1.
    { exists (2 + (3 + 1))%nat. split; [lia|].
      rewrite Hmore, Hnames, Hmore, Hcheck.
      cbn [run foldl replicate step workerStep fst snd].
      unfold call. by rewrite Hs, H1. }
    destruct (error_of E (calls (log _ w)) _) as [e2|] eqn:H2.
    { exists (2 + (3 + 2))%nat. split; [lia|].
      rewrite Hmore, Hnames, Hmore, Hcheck.
      cbn [run foldl replicate step workerStep fst snd].
      unfold call. rewrite Hs, H1. cbn [fst snd workerStep].
      unfold call. by rewrite H2. }
    destruct (error_of E (calls (log _ (log _ w))) _) as [e3|] eqn:H3.
    { exists (2 + (3 + 3))%nat. split; [lia|].
      rewrite Hmore, Hnames, Hmore, Hcheck.
      cbn [run foldl replicate step workerStep fst snd].
      unfold call. rewrite Hs, H1. cbn [fst snd workerStep].
      unfold call. rewrite H2. cbn [fst snd workerStep].
      unfold call. by rewrite Hlog2, H3. }
    exists (2 + (3 + 4))%nat. split; [lia|].
    rewrite Hmore, Hnames, Hmore, Hcheck.
    cbn [run foldl replicate step workerStep fst snd].
    unfold call. rewrite Hs, H1. cbn [fst snd workerStep].
    unfold call. rewrite H2. cbn [fst snd workerStep].
    unfold call. rewrite Hlog2, H3. cbn [fst snd workerStep].
    by rewrite Hlog3.
  - (* Idle *)
    exists (2 + 3)%nat. split; [lia|]. rewrite Hmore, Hnames.
    cbn [run foldl replicate step workerStep fst snd].
    rewrite Hs, bool_decide_eq_false_2 by done. cbn [fst snd workerStep].
    rewrite Hs, bool_decide_eq_false_2 by done. cbn [fst snd workerStep].
    by rewrite Hs, bool_decide_eq_false_2 by done.
Qed.


(** *** Stacks that a snapshot omits *)


Lemma pullImages_frame w stack n l k :
  k ≠ stack → table (pullImages E stack n l w).2 !! k = table w !! k.
Proof.
  intros Hk. destruct (table w !! stack) as [s|] eqn:Hs.
  - rewrite (pullImages_eq E _ _ _ _ _ Hs).
    destruct (PrePullImage s || RePullImage s); [|done]. cbn zeta.
    destruct (attempts _).
    + destruct (error_of E (calls w) _) as [err|]; [case_bool_decide|];
        cbn [snd]; rewrite ?table_log, table_poke, ?table_log;
        by rewrite lookup_insert_ne.
    + cbn [snd]. by rewrite table_poke, lookup_insert_ne.
  - unfold pullImages. by rewrite Hs.
Qed.









End Invariants.

(** ** The throttle of the pull phase *)

Section Throttle.

Variable E : Env.

Lemma pulls_app k cs1 cs2 :
  pulls k (cs1 ++ cs2) = (pulls k cs1 + pulls k cs2)%nat.
Proof. unfold pulls. by rewrite List.filter_app, length_app. Qed.

Lemma table_wf_insert m k s :
  table_wf m → ID s = k → table_wf (<[k := s]> m).
Proof. intros Hwf Hid. by apply map_Forall_insert_2. Qed.

Lemma table_wf_promote m : table_wf m → table_wf (promote <$> m).
Proof.
  intros Hwf k s. rewrite lookup_fmap.
  destruct (m !! k) as [s0|] eqn:Hs0; [|done]. cbn. intros [= <-].
  unfold promote. case_decide; by apply (Hwf k s0).
Qed.

Lemma pulls_log k c w :
  pulls k (calls (log c w))
  = (pulls k (calls w) + (if is_pull_of k c then 1 else 0))%nat.
Proof.
  change (calls (log c w)) with (calls w ++ [c]). rewrite pulls_app.
  unfold pulls. cbn. by destruct (is_pull_of k c).
Qed.

Lemma unchanged_for_refl k w : unchanged_for k w w.
Proof. done. Qed.

Lemma unchanged_for_trans k w1 w2 w3 :
  unchanged_for k w1 w2 → unchanged_for k w2 w3 → unchanged_for k w1 w3.
Proof. intros [? ?] [? ?]. split; congruence. Qed.

Lemma nextPendingStack_unchanged order w k :
  table_wf (table w) →
  table_wf (table (nextPendingStack order w).2)
  ∧ unchanged_for k w (nextPendingStack order w).2.
Proof.
  intros Hwf. unfold nextPendingStack.
  destruct (firstPending order (table w)); cbn [snd]; [done|].
  rewrite table_set_stacks. split; [by apply table_wf_promote|].
  split; [|done]. rewrite table_set_stacks, lookup_fmap.
  destruct (table w !! k) as [s|]; [|done]. cbn. unfold promote.
  by case_decide.
Qed.

Lemma deployStack_unchanged w stack n l k :
  table_wf (table w) →
  table_wf (table (deployStack E stack n l w))
  ∧ unchanged_for k w (deployStack E stack n l w).
Proof.
  intros Hwf. destruct (table w !! stack) as [s|] eqn:Hs.
  - pose proof (Hwf stack s Hs) as Hid. cbn in Hid.
    rewrite (deployStack_eq E _ _ _ _ _ Hs Hid). cbn zeta.
    destruct (error_of E (calls w) _) as [err|]; unfold unchanged_for;
      rewrite ?pulls_log, ?table_log, ?table_poke, ?calls_poke;
      cbn [is_pull_of];
      (split; [by apply table_wf_insert|]); (split; [|lia]);
      (destruct (decide (k = stack)) as [->|Hne];
       [by rewrite lookup_insert_eq, Hs|by rewrite lookup_insert_ne]).
  - unfold deployStack. by rewrite Hs.
Qed.

Lemma deleteStack_unchanged w stack n l k :
  table_wf (table w) →
  let w' := deleteStack E stack n l w in
  table_wf (table w')
  ∧ pulls k (calls w') = pulls k (calls w)
  ∧ (table w' !! k = None ∨ table w' !! k = table w !! k).
Proof.
  intros Hwf. unfold deleteStack, call.
  destruct (table w !! stack) as [s|] eqn:Hs; [|by auto].
  cbn -[log pulls set_stacks table calls].
  repeat match goal with
    | |- context [error_of E ?h ?x] =>
        destruct (error_of E h x); cbn -[log pulls set_stacks table calls]
    end;
    rewrite ?table_set_stacks, ?calls_set_stacks, ?table_log, ?pulls_log;
    cbn [is_pull_of];
    try (split; [done|split; [lia|by right]]).
  split; [by apply map_Forall_delete|]. split; [lia|].
  destruct (decide (ID s = k)) as [->|Hne].
  - left. apply lookup_delete_eq.
  - right. by apply lookup_delete_ne.
Qed.

Lemma pullImages_turn w stack n l s k :
  table_wf (table w) → table w !! stack = Some s →
  let w1 := (pullImages E stack n l w).2 in
  let retries := int_add (Retries s) 1 in
  table_wf (table w1)
  ∧ (k ≠ stack → unchanged_for k w w1)
  ∧ (unchanged_for stack w w1
     ∨ (Retries <$> table w1 !! stack = Some retries
        ∧ pulls stack (calls w1)
          = (pulls stack (calls w) + (if attempts retries then 1 else 0))%nat)).
Proof.
  intros Hwf Hs. pose proof (Hwf stack s Hs) as Hid. cbn in Hid.
  rewrite (pullImages_eq E _ _ _ _ _ Hs).
  destruct (PrePullImage s || RePullImage s);
    [|split; [done|]; split; [done|by left]].
  cbn zeta. change (Retries (set_Retries ?r s)) with r.
  destruct (attempts (int_add (Retries s) 1)).
  - destruct (error_of E (calls w) _) as [err|]; [case_bool_decide|];
      cbn [snd]; unfold unchanged_for;
      rewrite ?pulls_log, ?table_log, ?table_poke, ?calls_poke, ?pulls_log;
      cbn [is_pull_of];
      (split; [by apply table_wf_insert|]);
      (split;
       [intros Hne; rewrite lookup_insert_ne by done;
        rewrite bool_decide_eq_false_2 by done; split; [done|lia]
       |right; rewrite lookup_insert_eq, bool_decide_eq_true_2 by done;
        split; [done|lia]]).
  - cbn [snd]. unfold unchanged_for.
    rewrite ?table_poke, ?calls_poke.
    split; [by apply table_wf_insert|].
    split; [intros Hne; by rewrite lookup_insert_ne|].
    right. rewrite lookup_insert_eq. split; [done|lia].
Qed.

Lemma workerIteration_turn order w k :
  table_wf (table w) → turn k w (workerIteration E order w).
Proof.
  intros Hwf. unfold workerIteration, nextPendingStack.
  destruct (firstPending order (table w)) as [j|] eqn:Hf.
  - destruct (firstPending_Some _ _ _ Hf) as (s & Hs & _). rewrite Hs.
    destruct (bool_decide (Action s = actionDeploy)
              || bool_decide (Action s = actionUpdate)).
    + destruct (pullImages_turn w j ("edge_" +:+ Name s)
                  (FileFolder s +:+ "/" +:+ FileName s) s k Hwf Hs)
        as (Hwf1 & Hother & Hself).
      destruct (pullImages E j _ _ w) as [[err|] w1]; cbn [snd] in *.
      * split; [done|]. destruct (decide (k = j)) as [->|Hne].
        -- destruct Hself as [[Hr Hp]|[Hr Hp]]; [left|right];
             [by auto|by exists s].
        -- destruct (Hother Hne) as [Hr Hp]. left. by auto.
      * destruct (deployStack_unchanged w1 j ("edge_" +:+ Name s)
                    (FileFolder s +:+ "/" +:+ FileName s) k Hwf1)
          as (Hwf2 & Hr2 & Hp2).
        split; [done|]. rewrite Hp2, Hr2.
        destruct (decide (k = j)) as [->|Hne].
        -- destruct Hself as [[Hr Hp]|[Hr Hp]]; [left|right];
             [by auto|by exists s].
        -- destruct (Hother Hne) as [Hr Hp]. left. by auto.
    + destruct (bool_decide (Action s = actionDelete)).
      * destruct (deleteStack_unchanged w j ("edge_" +:+ Name s)
                    (FileFolder s +:+ "/" +:+ FileName s) k Hwf)
          as (Hwf1 & Hp & Hr).
        split; [done|]. left. split; [done|].
        destruct Hr as [Hr|Hr]; [by left|right; by rewrite Hr].
      * split; [done|]. left. by auto.
  - cbn [fst snd].
    destruct (nextPendingStack_unchanged order w k Hwf) as (Hwf1 & Hr & Hp).
    unfold nextPendingStack in *. rewrite Hf in *. cbn [snd] in *.
    split; [done|]. left. by auto.
Qed.

Lemma attempts_upto_mono r r' : r ≤ r' → attempts_upto r ≤ attempts_upto r'.
Proof.
  intros Hr. unfold attempts_upto. change RetryInterval with 720.
  pose proof (Z.div_le_mono r r' 720). lia.
Qed.

Lemma attempts_upto_succ r :
  attempts (r + 1) = true → attempts_upto r + 1 ≤ attempts_upto (r + 1).
Proof.
  rewrite attempts_spec. unfold attempts_upto. change RetryInterval with 720.
  intros [Hle|Hmod].
  - pose proof (Z.div_le_mono r (r + 1) 720). lia.
  - assert (r + 1 = 720 * ((r + 1) `div` 720)) as Hq
      by (rewrite (Z.div_mod (r + 1) 720) at 1 by lia; lia).
    assert (r `div` 720 < (r + 1) `div` 720).
    { apply Z.div_lt_upper_bound; lia. }
    lia.
Qed.

Lemma attempts_upto_throttled r n :
  RetryInterval ≤ r → 0 ≤ n →
  attempts_upto (r + n) - attempts_upto r ≤ ceil_div n RetryInterval.
Proof.
  unfold attempts_upto, ceil_div. change RetryInterval with 720.
  intros Hr Hn. rewrite !Z.min_r by lia.
  pose proof (Z.div_mod (r + n) 720). pose proof (Z.div_mod r 720).
  pose proof (Z.div_mod (n + 720 - 1) 720).
  pose proof (Z.mod_pos_bound (r + n) 720).
  pose proof (Z.mod_pos_bound r 720).
  pose proof (Z.mod_pos_bound (n + 720 - 1) 720). lia.
Qed.

Lemma workerIterations_potential orders w k r :
  table_wf (table w) →
  (∀ s, table w !! k = Some s → Retries s = r) →
  int_min ≤ r → r + Z.of_nat (length orders) ≤ int_max →
  let w' := workerIterations E orders w in
  (pulls k (calls w) ≤ pulls k (calls w'))%nat
  ∧ Z.of_nat (pulls k (calls w'))
    ≤ Z.of_nat (pulls k (calls w))
      + attempts_upto (r + Z.of_nat (length orders)) - attempts_upto r.
Proof.
  revert w r. induction orders as [|order orders IH]; intros w r Hwf Hr Hlo Hhi.
  { cbn. rewrite Z.add_0_r. lia. }
  cbn [workerIterations foldl length] in *.
  destruct (workerIteration_turn order w k Hwf)
    as (Hwf1 & [[Hp Hk]|(s & Hs & Hk & Hp)]).
  - destruct (IH (workerIteration E order w) r) as [IH1 IH2]; [done| |lia..|].
    { intros s1 Hs1. destruct Hk as [Hk|Hk]; [congruence|].
      rewrite Hs1 in Hk. destruct (table w !! k) as [s|] eqn:Hs; [|done].
      injection Hk as ->. by apply Hr. }
    fold (workerIterations E orders (workerIteration E order w)) in *.
    pose proof (attempts_upto_mono (r + Z.of_nat (length orders))
                  (r + Z.of_nat (S (length orders)))). lia.
  - rewrite (Hr s Hs) in Hk, Hp.
    rewrite int_add_small in Hk, Hp by lia.
    destruct (IH (workerIteration E order w) (r + 1)) as [IH1 IH2];
      [done| |lia..|].
    { intros s1 Hs1. rewrite Hs1 in Hk. by injection Hk. }
    fold (workerIterations E orders (workerIteration E order w)) in *.
    replace (r + 1 + Z.of_nat (length orders))
      with (r + Z.of_nat (S (length orders))) in IH2 by lia.
    destruct (attempts (r + 1)) eqn:Hat.
    + pose proof (attempts_upto_succ r Hat). lia.
    + pose proof (attempts_upto_mono r (r + 1)). lia.
Qed.

Lemma attempts_upto_bound r n :
  0 ≤ n →
  attempts_upto (r + n) - attempts_upto r
  ≤ Z.max 0 (RetryInterval - r) + ceil_div n RetryInterval.
Proof.
  unfold attempts_upto, ceil_div. change RetryInterval with 720.
  intros Hn.
  pose proof (Z.div_mod (r + n) 720). pose proof (Z.div_mod r 720).
  pose proof (Z.div_mod (n + 720 - 1) 720).
  pose proof (Z.mod_pos_bound (r + n) 720).
  pose proof (Z.mod_pos_bound r 720).
  pose proof (Z.mod_pos_bound (n + 720 - 1) 720). lia.
Qed.

(** The throttle in general: over [N] turns of the worker a stack is pulled
    at most once for each attempt that is left of its first [RetryInterval]
    ones, and [⌈N / RetryInterval⌉] times more. *)
Lemma retry_bound_general (w : World) (orders : list (list Z)) (k : Z)
    (s : edgeStack) :
  table_wf (table w) →
  table w !! k = Some s →
  int_min ≤ Retries s →
  Retries s + Z.of_nat (length orders) ≤ int_max →
  Z.of_nat (pulls_during E orders w k)
  ≤ Z.max 0 (RetryInterval - Retries s)
    + ceil_div (Z.of_nat (length orders)) RetryInterval.
Proof.
  intros Hwf Hs Hlo Hhi.
  destruct (workerIterations_potential orders w k (Retries s) Hwf)
    as [Hmono Hle]; [by intros ? [= <-]%(eq_trans (eq_sym Hs))|done..|].
  pose proof (attempts_upto_bound (Retries s) (Z.of_nat (length orders))).
  unfold pulls_during. lia.
Qed.

(** C5, as the code has it.  The deployer never manages to pull, and the
    retry counter of stack [k] has reached [RetryInterval] (and is not about
    to overflow).  Then during any [N] consecutive turns of the worker,
    whatever the order of the map iterations and whatever else is in the
    table, [Pull] is called for [k] at most [⌈N / RetryInterval⌉ + 1]
    times. *)
Theorem retry_bound (w : World) (orders : list (list Z)) (k : Z)
    (s : edgeStack) :
  pull_always_fails E →
  table_wf (table w) →
  table w !! k = Some s →
  RetryInterval ≤ Retries s →
  Retries s + Z.of_nat (length orders) ≤ int_max →
  Z.of_nat (pulls_during E orders w k)
  ≤ ceil_div (Z.of_nat (length orders)) RetryInterval + 1.
Proof.
  intros _ Hwf Hs Hr Hhi.
  destruct (workerIterations_potential orders w k (Retries s) Hwf)
    as [Hmono Hle]; [by intros ? [= <-]%(eq_trans (eq_sym Hs))| |done|].
  { unfold int_min. change RetryInterval with 720 in Hr. lia. }
  pose proof (attempts_upto_throttled (Retries s) (Z.of_nat (length orders)) Hr).
  unfold pulls_during. lia.
Qed.

End Throttle.

(** * The theorems at work on the scenarios *)

(** A first pull that fails leaves the stack in status [Retry]. *)
Lemma pull_phase_witness :
  table (workerIteration flaky_env [7]
           (demo_world_7 actionDeploy StatusPending 0))
  = {[7 := demo_stack actionDeploy StatusRetry 1]}.
Proof.
  destruct (pull_phase flaky_env [7]
              (demo_world_7 actionDeploy StatusPending 0) 7
              (demo_stack actionDeploy StatusPending 0)
              eq_refl eq_refl (or_introl eq_refl) (or_introl eq_refl))
    as (_ & _ & Hattempt & _).
  assert (Hdue : int_add 0 1 ≤ RetryInterval
                 ∨ int_add 0 1 `mod` RetryInterval = 0)
    by (left; by vm_compute).
  destruct (Hattempt Hdue "pull failed" eq_refl) as [Hretry _].
  assert (Hfew : int_add 0 1 < MaxRetries) by (by vm_compute).
  destruct (Hretry Hfew) as [Ht _].
  rewrite Ht. reflexivity.
Defined.

(** A stack marked for deletion leaves the table when all goes well. *)
Lemma delete_phase_witness :
  table (workerIteration demo_env [7]
           (demo_world_7 actionDelete StatusPending 0)) !! 7 = None.
Proof.
  apply (delete_phase demo_env [7]
           (demo_world_7 actionDelete StatusPending 0) 7
           (demo_stack actionDelete StatusPending 0)
           eq_refl eq_refl eq_refl eq_refl).
  repeat split; reflexivity.
Defined.

(** The credentials of the stack that is being deployed are returned. *)
Lemma GetEdgeRegistryCredentials_deploying_witness :
  ∃ k s,
    (table (demo_world_7 actionIdle StatusDeploying 1) !! k = Some s
     ∧ Status s = StatusDeploying)
    ∧ GetEdgeRegistryCredentials [7] (demo_world_7 actionIdle StatusDeploying 1)
      = RegistryCredentials s.
Proof.
  apply (GetEdgeRegistryCredentials_deploying [7]
           (demo_world_7 actionIdle StatusDeploying 1)).
  - vm_compute. reflexivity.
  - exists 7, (demo_stack actionIdle StatusDeploying 1). split; reflexivity.
Defined.

(** A fresh manager whose interval does not parse is enabled without a
    worker. *)
Lemma Start_parse_error_witness :
  ∃ w1,
    Start broken_env (mkWorld (NewStackManager "/assets") [] 0)
      = (Some "time: unknown unit", w1)
    ∧ isEnabled (manager w1) = true ∧ workers w1 = 0%nat.
Proof.
  destruct (Start_parse_error broken_env
              (mkWorld (NewStackManager "/assets") [] 0)
              "time: unknown unit" eq_refl eq_refl)
    as (w1 & HStart & Hen & _ & Hworkers & _).
  exists w1. repeat split; assumption.
Defined.


(** The coordinator knows stack 7 but not stack 8: stack 7 is committed,
    and the error for stack 8 comes back. *)
Lemma UpdateStacksStatus_aborts_witness :
  ∃ w2,
    UpdateStacksStatus partial_env demo_snapshot [7; 8] demo_world
      = (Some "no such stack", w2)
    ∧ table w2 !! 7 = Some (demo_stack actionDeploy StatusPending 0).
Proof.
  pose (w1 := (processStacks partial_env demo_snapshot [7] demo_world).2).
  assert (Hpre : processStacks partial_env demo_snapshot [7] demo_world
                 = (None, w1)) by (by vm_compute).
  assert (Hnew : ∀ s, table w1 !! 8 = Some s → ID s = 8 ∧ Version s ≠ 1)
    by (intros s Hs; vm_compute in Hs; discriminate).
  destruct (UpdateStacksStatus_aborts partial_env demo_world w1
              demo_snapshot [7] [] 8 1 "no such stack"
              eq_refl Hpre eq_refl Hnew (or_introl eq_refl))
    as (w2 & Hu & Hframe & _).
  exists w2. split; [exact Hu|].
  rewrite (Hframe 7) by discriminate. reflexivity.
Defined.


(** A stack that has used up its first 720 attempts is pulled at most
    three times in 1440 turns. *)
Lemma retry_bound_witness :
  Z.of_nat (pulls_during flaky_env (replicate 1440 [7])
              (demo_world_7 actionDeploy StatusPending 720) 7)
  ≤ 3.
Proof.
  apply (retry_bound flaky_env (demo_world_7 actionDeploy StatusPending 720)
           (replicate 1440 [7]) 7 (demo_stack actionDeploy StatusPending 720)).
  - intros h stack name filePaths. discriminate.
  - unfold table_wf. apply (bool_decide_unpack _). vm_compute. exact I.
  - reflexivity.
  - by vm_compute.
  - by vm_compute.
Defined.

(** C5 as stated fails: a fresh stack whose pulls all fail is pulled three
    times in five turns of the worker. *)
Lemma retry_bound_counterexample :
  pull_always_fails flaky_env
  ∧ pulls_during flaky_env (replicate 5 [7])
      (demo_world_7 actionDeploy StatusPending 0) 7 = 3%nat
  ∧ ¬ (Z.of_nat (pulls_during flaky_env (replicate 5 [7])
                   (demo_world_7 actionDeploy StatusPending 0) 7)
       ≤ ceil_div 5 RetryInterval + 1).
Proof.
  split; [intros h stack name filePaths; discriminate|].
  split; [by vm_compute|]. by vm_compute.
Qed.



(** The three cases of [processStack] on stack 7. *)
Lemma processStack_entry_witness :
  table (processStack demo_env 7 1 demo_world).2 !! 7
    = Some (demo_stack actionDeploy StatusPending 0)
  ∧ processStack demo_env 7 1 (demo_world_7 actionIdle StatusDone 1)
    = (None, demo_world_7 actionIdle StatusDone 1)
  ∧ Action <$> table (processStack demo_env 7 2
                        (demo_world_7 actionIdle StatusDone 1)).2 !! 7
    = Some actionUpdate.
Proof.
  split; [|split].
  - destruct (proj1 (processStack_entry demo_env demo_world 7 1)
                eq_refl demo_config eq_refl eq_refl) as (w' & Hp & Ht & _).
    rewrite Hp. cbn [snd]. rewrite Ht. reflexivity.
  - apply (proj1 (proj2 (processStack_entry demo_env
                           (demo_world_7 actionIdle StatusDone 1) 7 1))
             (demo_stack actionIdle StatusDone 1)); reflexivity.
  - assert (Hv : Version (demo_stack actionIdle StatusDone 1) ≠ 2)
      by (by vm_compute).
    destruct (proj2 (proj2 (processStack_entry demo_env
                              (demo_world_7 actionIdle StatusDone 1) 7 2))
                (demo_stack actionIdle StatusDone 1) eq_refl eq_refl Hv
                demo_config eq_refl eq_refl) as (w' & Hp & Ht & _).
    rewrite Hp. cbn [snd]. rewrite Ht. reflexivity.
Defined.

(** The directory that is removed for a manifest of the scenarios is the
    folder of its stack. *)
Example demo_Dir_manifest :
  demo_Dir "/data/7/docker-compose.yml" = "/data/7".
Proof. reflexivity. Qed.

(** * Further properties of the code *)

(** ** Lifecycle controller *)

Section LifecycleController.

Variable E : Env.

Lemma lifecycleStep_consistent op w :
  lifecycle_consistent w → lifecycle_consistent (lifecycleStep E op w).
Proof.
  unfold lifecycle_consistent. intros Hw. destruct op; cbn [lifecycleStep].
  - unfold Start. destruct (stopSignal (manager w)) eqn:Hs.
    + cbn. by rewrite Hs.
    + by destruct (ParseDuration E _).
  - unfold Stop. destruct (stopSignal (manager w)) eqn:Hs; [done|].
    cbn. by rewrite Hs.
  - unfold SetEngineStatus, Stop. case_decide; [done|]. cbn.
    destruct (stopSignal (manager w)) eqn:Hs; cbn;
      destruct (buildDeployerService E _ _); cbn; rewrite ?Hs; done.
Qed.

(** X1.  From a new manager, after any sequence of calls of [Start], [Stop]
    and [SetEngineStatus], whatever they return, the manager is enabled
    exactly when its stop channel is open. *)
Theorem lifecycle_invariant (assetsPath : string) (ops : list LifecycleOp) :
  lifecycle_consistent
    (lifecycleRun E ops (mkWorld (NewStackManager assetsPath) [] 0)).
Proof.
  assert (Hinit : lifecycle_consistent
                    (mkWorld (NewStackManager assetsPath) [] 0)) by done.
  revert Hinit. generalize (mkWorld (NewStackManager assetsPath) [] 0).
  induction ops as [|op ops IH]; intros w Hw; [done|].
  cbn. apply IH. by apply lifecycleStep_consistent.
Qed.


(** X3.  [Start] on a manager that is not running, with an interval that
    parses, returns nil, enables the manager, opens the stop channel and
    launches one worker, touching neither the table nor the collaborators.
    A [Start] that follows any [Start] returns nil and changes nothing: no
    second worker is launched. *)
Theorem Start_once (w : World) (interval : Z) :
  stopSignal (manager w) = None →
  ParseDuration E (EdgeStackQueueSleepInterval E) = Ok interval →
  ∃ w1,
    Start E w = (None, w1)
    ∧ isEnabled (manager w1) = true
    ∧ stopSignal (manager w1) = Some ()
    ∧ workers w1 = S (workers w)
    ∧ table w1 = table w ∧ calls w1 = calls w
    ∧ Start E w1 = (None, w1).
Proof.
  intros Hs Hp. unfold Start at 1. rewrite Hs, Hp. eexists.
  split; [reflexivity|]. by repeat (split; [reflexivity|]).
Qed.

Lemma Start_idempotent w : Start E (Start E w).2 = (None, (Start E w).2).
Proof.
  unfold Start at 2 3. destruct (stopSignal (manager w)) eqn:Hs.
  - cbn. unfold Start. by rewrite Hs.
  - by destruct (ParseDuration E _).
Qed.

(** X4.  A change of engine kind whose deployer cannot be built returns the
    error of the constructor, but has already recorded the new kind and
    stopped the manager, and leaves the deployer that was installed before.
    Asking for the same kind again then returns nil without building
    anything: the mismatch between kind and deployer stays until another kind
    is set. *)
Theorem SetEngineStatus_failed_not_retried (w : World)
    (engineStatus : engineType) (err : error) :
  engineStatus ≠ engine (manager w) →
  buildDeployerService E (assetsPath (manager w)) engineStatus = Err err →
  ∃ w1,
    SetEngineStatus E engineStatus w = (Some err, w1)
    ∧ engine (manager w1) = engineStatus
    ∧ deployer (manager w1) = deployer (manager w)
    ∧ stopSignal (manager w1) = None
    ∧ workers w1 = workers w
    ∧ SetEngineStatus E engineStatus w1 = (None, w1).
Proof.
  intros Hne Hb. unfold SetEngineStatus at 1, Stop.
  rewrite decide_False by done. cbn.
  destruct (stopSignal (manager w)) eqn:Hs; cbn; rewrite Hb; eexists;
    (split; [reflexivity|]); cbn; rewrite ?Hs;
    repeat (split; [reflexivity|]);
    unfold SetEngineStatus; cbn; by rewrite decide_True.
Qed.

(** X5.  A change to an engine kind whose deployer can be built returns nil,
    records the kind, installs the deployer built for it and leaves the
    manager stopped: no worker is launched, and the table and the calls are
    as before.  Setting the kind that the manager already has changes
    nothing at all. *)
Theorem SetEngineStatus_switch (w : World) (engineStatus : engineType) :
  (engineStatus = engine (manager w) →
   SetEngineStatus E engineStatus w = (None, w))
  ∧ (engineStatus ≠ engine (manager w) →
     ∀ built,
       buildDeployerService E (assetsPath (manager w)) engineStatus = Ok built →
       ∃ w1,
         SetEngineStatus E engineStatus w = (None, w1)
         ∧ built = engineStatus
         ∧ engine (manager w1) = engineStatus
         ∧ deployer (manager w1) = Some engineStatus
         ∧ stopSignal (manager w1) = None
         ∧ (stopSignal (manager w) ≠ None → isEnabled (manager w1) = false)
         ∧ workers w1 = workers w
         ∧ table w1 = table w ∧ calls w1 = calls w).
Proof.
  split.
  - intros Heq. unfold SetEngineStatus. by rewrite decide_True.
  - intros Hne built Hb.
    assert (built = engineStatus) as ->.
    { unfold buildDeployerService in Hb.
      destruct engineStatus; try destruct (NewDeployer E _ _);
        by simplify_eq. }
    unfold SetEngineStatus, Stop. rewrite decide_False by done. cbn.
    destruct (stopSignal (manager w)) eqn:Hs; cbn; rewrite Hb; eexists;
      (split; [reflexivity|]); cbn; rewrite ?Hs;
      repeat (split; [done|]); done.
Qed.

End LifecycleController.

(** ** Out-of-band pushes *)

Section Pushes.

Variable E : Env.

(** [buildDeployerParams] with its writes to the record collected. *)
Lemma buildDeployerParams_eq w d del :
  buildDeployerParams E d del w =
    let kind := engine (manager w) in
    let id := EdgeStackData.ID d in
    let '(err, w1) :=
      if del then (None, w) else call E (writePushed E kind d) w in
    match err with
    | Some err => (Some err, w1)
    | None =>
        match table w !! id with
        | Some s =>
            if negb del && bool_decide (Version s = EdgeStackData.Version d)
            then (None, w1)
            else
              let r :=
                pushed E kind d (if del then actionDelete else actionUpdate) s
              in (None, poke (ID s) r (poke id r w1))
        | None =>
            (None,
             poke id
               (pushed E kind d actionDeploy
                  (new_edgeStack id actionDeploy StatusPending 0)) w1)
        end
    end.
Proof.
  unfold buildDeployerParams, writePushed, writeManifest, manifestContent,
    manifestFileName, manifestFolder, pushed, call.
  destruct (engine (manager w)) eqn:Hk,
    (EdgeStackData.RegistryCredentials d) as [|cr crs] eqn:Hcr, del;
    repeat case_decide; try done; cbn [negb andb];
    repeat match goal with
      | |- context [error_of E ?h ?x] => destruct (error_of E h x)
      end;
    try reflexivity;
    rewrite ?table_log;
    destruct (table w !! EdgeStackData.ID d) as [s|] eqn:Hs;
    try case_bool_decide; cbn; try reflexivity;
    unfold poke, set_stacks, log, table; cbn;
    rewrite ?insert_insert_eq; reflexivity.
Qed.

(** X6.  A push never reports to the coordinator.  [DeleteStack] calls no
    collaborator at all and always returns nil.  [DeployStack] makes one call,
    the write of the manifest, and returns what that call returns; if the
    write fails the table is left as it was. *)
Theorem push_reports_nothing (w : World) (d : EdgeStackData.t) :
  let wr := writePushed E (engine (manager w)) d in
  (DeleteStack E d w).1 = None
  ∧ calls (DeleteStack E d w).2 = calls w
  ∧ (DeployStack E d w).1 = error_of E (calls w) wr
  ∧ calls (DeployStack E d w).2 = calls w ++ [wr]
  ∧ (error_of E (calls w) wr ≠ None → table (DeployStack E d w).2 = table w).
Proof.
  intros wr. unfold DeleteStack, DeployStack.
  rewrite !buildDeployerParams_eq. cbn zeta. fold wr. unfold call.
  destruct (table w !! EdgeStackData.ID d) as [s|] eqn:Hs;
    destruct (error_of E (calls w) wr) as [err|];
    cbn [negb andb fst snd]; try case_bool_decide; cbn [fst snd];
    rewrite ?calls_poke, ?table_log; done.
Qed.

(** X7.  [DeleteStack] for a stack that the table holds marks its record
    [Delete] and [Pending] and overwrites name, version, credentials, pull
    flags and manifest location with the pushed data, without writing any
    file.  [DeleteStack] for a stack that the table does not hold inserts a
    record for it with action [Deploy] and status [Pending]: the stack is
    queued for deployment, and its manifest has not been written. *)
Theorem DeleteStack_marks (w : World) (d : EdgeStackData.t) :
  let kind := engine (manager w) in
  let id := EdgeStackData.ID d in
  (∀ s, table w !! id = Some s → ID s = id →
        DeleteStack E d w
        = (None, poke id (pushed E kind d actionDelete s) w))
  ∧ (table w !! id = None →
     DeleteStack E d w
     = (None,
        poke id
          (mkEdgeStack id (EdgeStackData.Name d) (EdgeStackData.Version d)
             (manifestFolder E id)
             (manifestFileName kind (EdgeStackData.Name d))
             StatusPending actionDeploy (EdgeStackData.RegistryCredentials d)
             "" (EdgeStackData.PrePullImage d) (EdgeStackData.RePullImage d)
             0) w)).
Proof.
  intros kind id. unfold DeleteStack. rewrite buildDeployerParams_eq.
  cbn zeta. fold kind id. split.
  - intros s Hs Hid. rewrite Hs. cbn [negb andb]. cbn [pushed ID] .
    rewrite Hid. by rewrite poke_poke.
  - intros Hs. by rewrite Hs.
Qed.

(** X8.  [DeployStack] writes the manifest before it looks at the table.
    For a stack that the table holds with the pushed version, the manifest
    is thus written again while the record stays as it is, whatever else
    the push carries.  With another version the record becomes [Update] and
    [Pending] with the pushed data, and for a stack that is new to the
    table a [Deploy] record is inserted; the retry counter of a known stack
    is kept. *)
Theorem DeployStack_cases (w : World) (d : EdgeStackData.t) :
  let kind := engine (manager w) in
  let id := EdgeStackData.ID d in
  let wr := writePushed E kind d in
  error_of E (calls w) wr = None →
  (∀ s, table w !! id = Some s → Version s = EdgeStackData.Version d →
        DeployStack E d w = (None, log wr w))
  ∧ (∀ s, table w !! id = Some s → ID s = id →
          Version s ≠ EdgeStackData.Version d →
          DeployStack E d w
          = (None, poke id (pushed E kind d actionUpdate s) (log wr w)))
  ∧ (table w !! id = None →
     DeployStack E d w
     = (None,
        poke id
          (pushed E kind d actionDeploy
             (new_edgeStack id actionDeploy StatusPending 0)) (log wr w))).
Proof.
  intros kind id wr Hw. unfold DeployStack. rewrite buildDeployerParams_eq.
  cbn zeta. fold kind id wr. unfold call. rewrite Hw.
  split; [|split].
  - intros s Hs Hv. rewrite Hs. cbn [negb andb].
    by rewrite bool_decide_eq_true_2.
  - intros s Hs Hid Hv. rewrite Hs. cbn [negb andb].
    rewrite bool_decide_eq_false_2 by done. cbn [pushed ID].
    rewrite Hid. by rewrite poke_poke.
  - intros Hs. by rewrite Hs.
Qed.

End Pushes.

(** ** Snapshots *)

Section Snapshots.

Variable E : Env.

Lemma processStack_wf w stackID version :
  table_wf (table w) → table_wf (table (processStack E stackID version w).2).
Proof.
  intros Hwf.
  destruct (processStack E stackID version w) as [err w'] eqn:Hp.
  destruct (processStack_effect E w stackID version
              (λ s Hs, Hwf stackID s Hs) _ _ Hp)
    as ([Ht|(r & Ht & Hid & _)] & _); cbn [snd]; rewrite Ht; [done|].
  by apply table_wf_insert.
Qed.

(** When [processStack] returns nil, the table holds the stack with the
    version of the entry. *)
Lemma processStack_nil w stackID version w' :
  (∀ s, table w !! stackID = Some s → ID s = stackID) →
  processStack E stackID version w = (None, w') →
  ∃ s, table w' !! stackID = Some s ∧ Version s = version.
Proof.
  intros Hwf Hp.
  destruct (table w !! stackID) as [s|] eqn:Hs.
  - destruct (decide (Version s = version)) as [Hv|Hv].
    + rewrite (processStack_unchanged E _ _ _ _ Hs Hv) in Hp.
      injection Hp as <-. by exists s.
    + destruct (config_of E (calls w) stackID) as [c|err] eqn:Hc.
      * rewrite (processStack_update E _ _ _ _ _ Hs (Hwf s eq_refl) Hv Hc)
          in Hp.
        destruct (error_of E _ _) as [e|]; [done|].
        unfold call in Hp. injection Hp as _ <-.
        rewrite table_log, table_poke, lookup_insert_eq. by eexists.
      * rewrite (processStack_fetch_failed E w stackID version err) in Hp;
          [done|]. rewrite Hs, (Hwf s eq_refl). done.
  - destruct (config_of E (calls w) stackID) as [c|err] eqn:Hc.
    + rewrite (processStack_deploy E _ _ _ _ Hs Hc) in Hp.
      destruct (error_of E _ _) as [e|]; [done|].
      unfold call in Hp. injection Hp as _ <-.
      rewrite table_log, table_poke, lookup_insert_eq. by eexists.
    + rewrite (processStack_fetch_failed E w stackID version err) in Hp;
        [done|]. by rewrite Hs.
Qed.

(** The records that carry the version of the snapshot. *)
Lemma processStacks_keeps_version poll order w k v :
  table_wf (table w) →
  poll !! k = Some v →
  (∃ s, table w !! k = Some s ∧ Version s = v) →
  ∃ s, table (processStacks E poll order w).2 !! k = Some s ∧ Version s = v.
Proof.
  revert w. induction order as [|k0 order IH]; intros w Hwf Hk Hs; [done|].
  cbn. destruct (poll !! k0) as [v0|] eqn:Hk0; [|by apply IH].
  assert (∃ s, table (processStack E k0 v0 w).2 !! k = Some s ∧ Version s = v)
    as Hs1.
  { destruct (decide (k = k0)) as [->|Hne].
    - destruct Hs as (s & Hs & Hv). assert (v0 = v) as -> by congruence.
      by rewrite (processStack_unchanged E _ _ _ _ Hs Hv); eauto.
    - rewrite processStack_frame; [done| |done]. intros s. apply Hwf. }
  pose proof (processStack_wf w k0 v0 Hwf) as Hwf1.
  destruct (processStack E k0 v0 w) as [[err|] w1]; cbn [snd] in *; [done|].
  by apply IH.
Qed.

Lemma processStacks_versions poll order w w' :
  table_wf (table w) →
  processStacks E poll order w = (None, w') →
  ∀ k v, k ∈ order → poll !! k = Some v →
         ∃ s, table w' !! k = Some s ∧ Version s = v.
Proof.
  revert w. induction order as [|k0 order IH]; intros w Hwf Hp k v Hin Hk.
  { by apply elem_of_nil in Hin. }
  cbn in Hp. destruct (poll !! k0) as [v0|] eqn:Hk0.
  - pose proof (processStack_wf w k0 v0 Hwf) as Hwf1.
    destruct (processStack E k0 v0 w) as [[err|] w1] eqn:Hp1; [done|].
    cbn [snd] in Hwf1.
    destruct (decide (k = k0)) as [->|Hne].
    + assert (v0 = v) as -> by congruence.
      pose proof (processStacks_keeps_version poll order w1 k0 v Hwf1 Hk) as Hkeep.
      rewrite Hp in Hkeep. apply Hkeep.
      eapply processStack_nil; [|done]. intros s. apply Hwf.
    + apply (IH w1); try done.
      apply elem_of_cons in Hin as [->|Hin]; done.
  - apply (IH w); try done.
    apply elem_of_cons in Hin as [->|Hin]; [congruence|done].
Qed.

(** A loop whose entries all find their version in the table does
    nothing. *)
Lemma processStacks_noop poll order w :
  (∀ k v, k ∈ order → poll !! k = Some v →
          ∃ s, table w !! k = Some s ∧ Version s = v) →
  processStacks E poll order w = (None, w).
Proof.
  induction order as [|k0 order IH]; intros Hall; [done|].
  cbn. destruct (poll !! k0) as [v0|] eqn:Hk0.
  - destruct (Hall k0 v0) as (s & Hs & Hv); [by left|done|].
    rewrite (processStack_unchanged E _ _ _ _ Hs Hv). apply IH.
    intros k v Hin. apply Hall. by right.
  - apply IH. intros k v Hin. apply Hall. by right.
Qed.

Lemma processStacks_frame_wf poll order w k :
  table_wf (table w) → poll !! k = None →
  table (processStacks E poll order w).2 !! k = table w !! k.
Proof.
  intros Hwf Hk. revert w Hwf.
  induction order as [|k0 order IH]; intros w Hwf; cbn; [done|].
  destruct (poll !! k0) as [v|] eqn:Hk0; [|by apply IH].
  assert (k ≠ k0) as Hne by congruence.
  pose proof (processStack_frame E w k0 v k (λ s Hs, Hwf k0 s Hs) Hne) as Hfr.
  pose proof (processStack_wf w k0 v Hwf) as Hwf1.
  destruct (processStack E k0 v w) as [[e|] w1]; cbn [snd] in *; [done|].
  by rewrite IH.
Qed.

Lemma processRemovedStacks_wf poll w :
  table_wf (table w) → table_wf (table (processRemovedStacks poll w)).
Proof.
  intros Hwf k s. rewrite processRemovedStacks_lookup.
  destruct (table w !! k) as [s0|] eqn:Hs0; [|done]. cbn. intros [= <-].
  pose proof (Hwf k s0 Hs0). by destruct (poll !! k).
Qed.

Lemma processRemovedStacks_idempotent poll w :
  processRemovedStacks poll (processRemovedStacks poll w)
  = processRemovedStacks poll w.
Proof.
  unfold processRemovedStacks at 1.
  replace (map_imap _ (table (processRemovedStacks poll w)))
    with (table (processRemovedStacks poll w)); [done|].
  apply map_eq. intros k. rewrite map_lookup_imap.
  rewrite processRemovedStacks_lookup.
  destruct (table w !! k) as [s|]; [|done]. cbn.
  by destruct (poll !! k).
Qed.

Lemma processStacks_lifecycle poll order w :
  table_wf (table w) →
  table_wf (table (processStacks E poll order w).2)
  ∧ lifecycle (processStacks E poll order w).2 = lifecycle w.
Proof.
  revert w. induction order as [|k0 order IH]; intros w Hwf; cbn; [done|].
  destruct (poll !! k0) as [v0|]; [|by apply IH].
  pose proof (processStack_wf w k0 v0 Hwf) as Hwf1.
  destruct (processStack E k0 v0 w) as [err w1] eqn:Hp1. cbn [snd] in Hwf1.
  destruct (processStack_effect E w k0 v0 (λ s Hs, Hwf k0 s Hs) _ _ Hp1)
    as (_ & _ & Hl).
  destruct err; [done|]. destruct (IH w1 Hwf1) as [? Hl1].
  split; [done|]. by rewrite Hl1.
Qed.

(** X9.  What a snapshot that an enabled manager has processed without
    error leaves behind: every stack that the snapshot lists is in the
    table, with the version of the snapshot; of the stacks that it does not
    list, those that were in the table are still there, marked [Delete] and
    [Pending] and otherwise as they were, and none has been added.  Every
    record still sits under its own identifier. *)
Theorem snapshot_applied (w w' : World) (pollResponseStacks : gmap Z Z)
    (order : list Z) :
  table_wf (table w) →
  isEnabled (manager w) = true →
  range_of pollResponseStacks order →
  UpdateStacksStatus E pollResponseStacks order w = (None, w') →
  table_wf (table w')
  ∧ (∀ k v, pollResponseStacks !! k = Some v →
            ∃ s, table w' !! k = Some s ∧ Version s = v)
  ∧ (∀ k, pollResponseStacks !! k = None →
          table w' !! k
          = (λ s, set_Status StatusPending (set_Action actionDelete s))
              <$> table w !! k).
Proof.
  intros Hwf Hen Hrange Hu. unfold UpdateStacksStatus in Hu.
  rewrite Hen in Hu. cbn [negb] in Hu.
  destruct (processStacks E pollResponseStacks order w) as [[e|] w0] eqn:Hp;
    [done|]. injection Hu as <-.
  assert (Hwf0 : table_wf (table w0)).
  { pose proof (processStacks_lifecycle pollResponseStacks order w Hwf) as [H _].
    by rewrite Hp in H. }
  split; [by apply processRemovedStacks_wf|]. split.
  - intros k v Hk. rewrite processRemovedStacks_lookup, Hk.
    destruct (processStacks_versions pollResponseStacks order w w0 Hwf Hp k v)
      as (s & Hs & Hv); [|done|].
    { apply (range_of_elem _ _ _ Hrange). by exists v. }
    exists s. by rewrite Hs.
  - intros k Hk. rewrite processRemovedStacks_lookup, Hk.
    pose proof (processStacks_frame_wf pollResponseStacks order w k Hwf Hk)
      as Hfr.
    rewrite Hp in Hfr. cbn [snd] in Hfr. by rewrite Hfr.
Qed.

(** X10.  A snapshot that has been processed without error is settled:
    processing the same snapshot again, in the same order of iteration,
    returns nil, calls neither the coordinator nor the filesystem, and
    leaves the world exactly as it is. *)
Theorem UpdateStacksStatus_idempotent (w w' : World)
    (pollResponseStacks : gmap Z Z) (order : list Z) :
  table_wf (table w) →
  UpdateStacksStatus E pollResponseStacks order w = (None, w') →
  UpdateStacksStatus E pollResponseStacks order w' = (None, w').
Proof.
  intros Hwf Hu. unfold UpdateStacksStatus in *.
  destruct (isEnabled (manager w)) eqn:Hen; cbn [negb] in Hu.
  2:{ injection Hu as <-. by rewrite Hen. }
  destruct (processStacks E pollResponseStacks order w) as [[e|] w0] eqn:Hp;
    [done|]. injection Hu as <-.
  assert (isEnabled (manager (processRemovedStacks pollResponseStacks w0))
          = true) as ->.
  { change (isEnabled (manager w0) = true).
    pose proof (processStacks_lifecycle pollResponseStacks order w Hwf)
      as [_ Hl].
    rewrite Hp in Hl. cbn [snd] in Hl. unfold lifecycle in Hl.
    injection Hl as _ _ _ Hl _ _. congruence. }
  cbn [negb].
  rewrite processStacks_noop.
  - by rewrite processRemovedStacks_idempotent.
  - intros k v Hin Hk. rewrite processRemovedStacks_lookup, Hk.
    destruct (processStacks_versions pollResponseStacks order w w0 Hwf Hp k v)
      as (s & Hs & Hv); [done..|].
    exists s. by rewrite Hs.
Qed.

End Snapshots.

(** ** The turns of the worker *)

Section Turns.

Variable E : Env.

Lemma firstPending_None order m :
  firstPending order m = None →
  ∀ k s, k ∈ order → m !! k = Some s → Status s ≠ StatusPending.
Proof.
  induction order as [|k0 order IH]; cbn; intros Hf k s Hin Hs.
  { by apply elem_of_nil in Hin. }
  destruct (m !! k0) as [s0|] eqn:Hs0.
  - case_decide as Hp; [done|].
    apply elem_of_cons in Hin as [->|Hin]; [by simplify_eq|by eapply IH].
  - apply elem_of_cons in Hin as [->|Hin]; [congruence|by eapply IH].
Qed.

(** X11.  [nextPendingStack], for any order in which the map may be
    traversed.  If it returns a stack, that stack is in the table with
    status [Pending], and nothing has changed: records in status [Retry]
    stay there as long as some record is pending.  If it returns nil, no
    record was pending, and the sweep has turned every [Retry] into
    [Pending] and left all other records as they were, so that no record is
    in status [Retry] afterwards. *)
Theorem nextPendingStack_selects (order : list Z) (w : World) :
  range_of (table w) order →
  match nextPendingStack order w with
  | (Some k, w') =>
      w' = w ∧ ∃ s, table w !! k = Some s ∧ Status s = StatusPending
  | (None, w') =>
      (∀ k s, table w !! k = Some s → Status s ≠ StatusPending)
      ∧ (∀ k s, table w !! k = Some s → Status s = StatusRetry →
                table w' !! k = Some (set_Status StatusPending s))
      ∧ (∀ k s, table w !! k = Some s → Status s ≠ StatusRetry →
                table w' !! k = Some s)
      ∧ (∀ k s, table w' !! k = Some s → Status s ≠ StatusRetry)
      ∧ calls w' = calls w
  end.
Proof.
  intros Hrange. unfold nextPendingStack.
  destruct (firstPending order (table w)) as [k|] eqn:Hf.
  - split; [done|]. by eapply firstPending_Some.
  - rewrite table_set_stacks. split; [|split; [|split; [|split]]].
    + intros k s Hs. eapply firstPending_None; [done| |done].
      apply (range_of_elem _ _ _ Hrange). by exists s.
    + intros k s Hs Hr. rewrite lookup_fmap, Hs. cbn. unfold promote.
      by rewrite decide_True.
    + intros k s Hs Hr. rewrite lookup_fmap, Hs. cbn. unfold promote.
      by rewrite decide_False.
    + intros k s. rewrite lookup_fmap.
      destruct (table w !! k) as [s0|]; [|done]. cbn. intros [= <-].
      unfold promote. by case_decide.
    + done.
Qed.

(** X12.  The deploy phase.  The worker has picked the pending stack
    [stack], whose action is [Deploy] or [Update] and which does not ask for
    its images to be pulled.  Its turn calls [Deploy] of the deployer, for
    project [edge_<name>], the manifest of the stack and its namespace, and
    then reports the outcome: [Ok] and status [Done] if the deployment
    succeeded, [Error] with the text of the error and status [Error] if it
    failed.  The action is [Idle] either way, the retry counter is not
    touched, and nothing else is called. *)
Theorem deploy_phase (order : list Z) (w : World) (stack : Z) (s : edgeStack) :
  firstPending order (table w) = Some stack →
  table w !! stack = Some s →
  ID s = stack →
  Action s = actionDeploy ∨ Action s = actionUpdate →
  PrePullImage s = false → RePullImage s = false →
  let dp :=
    Deploy stack ("edge_" +:+ Name s) [FileFolder s +:+ "/" +:+ FileName s]
      (Namespace s) in
  let w' := workerIteration E order w in
  match error_of E (calls w) dp with
  | None =>
      table w' = <[stack := set_Status StatusDone (set_Action actionIdle s)]>
                   (table w)
      ∧ calls w' =
          calls w ++ [dp; SetEdgeStackStatus stack portainer.EdgeStackStatusOk ""]
  | Some err =>
      table w' = <[stack := set_Status StatusError (set_Action actionIdle s)]>
                   (table w)
      ∧ calls w' =
          calls w ++
          [dp; SetEdgeStackStatus stack portainer.EdgeStackStatusError err]
  end.
Proof.
  intros Hf Hs Hid Ha Hpre Hre dp w'. subst w'.
  rewrite (workerIteration_deploy E _ _ _ _ Hf Hs Ha). cbn zeta.
  rewrite (pullImages_eq E _ _ _ _ _ Hs), Hpre, Hre. cbn [orb].
  rewrite (deployStack_eq E _ _ _ _ _ Hs Hid). cbn zeta. fold dp.
  destruct (error_of E (calls w) dp) as [err|];
    rewrite !table_log, table_poke; (split; [done|]);
    cbn; by rewrite <- app_assoc.
Qed.

(** X13.  The pull phase when it succeeds.  The worker has picked a stack
    that asks for its images to be pulled, and the new value of its retry
    counter calls for an attempt.  If [Pull] succeeds, [ImagesPulled] is
    reported, and whatever that report returns the turn goes on to
    [Deploy] and to the report of its outcome, as in the deploy phase.  The
    record ends with action [Idle], status [Done] or [Error], and the
    incremented counter. *)
Theorem pull_then_deploy (order : list Z) (w : World) (stack : Z)
    (s : edgeStack) :
  firstPending order (table w) = Some stack →
  table w !! stack = Some s →
  ID s = stack →
  Action s = actionDeploy ∨ Action s = actionUpdate →
  PrePullImage s = true ∨ RePullImage s = true →
  let retries := int_add (Retries s) 1 in
  let location := FileFolder s +:+ "/" +:+ FileName s in
  let pull := Pull stack ("edge_" +:+ Name s) [location] in
  let pulled :=
    SetEdgeStackStatus stack portainer.EdgeStackStatusImagesPulled "" in
  let dp := Deploy stack ("edge_" +:+ Name s) [location] (Namespace s) in
  let w' := workerIteration E order w in
  retries ≤ RetryInterval ∨ retries `mod` RetryInterval = 0 →
  error_of E (calls w) pull = None →
  match error_of E (calls w ++ [pull; pulled]) dp with
  | None =>
      table w' =
        <[stack := set_Status StatusDone
                     (set_Action actionIdle (set_Retries retries s))]>
          (table w)
      ∧ calls w' =
          calls w ++
          [pull; pulled; dp;
           SetEdgeStackStatus stack portainer.EdgeStackStatusOk ""]
  | Some err =>
      table w' =
        <[stack := set_Status StatusError
                     (set_Action actionIdle (set_Retries retries s))]>
          (table w)
      ∧ calls w' =
          calls w ++
          [pull; pulled; dp;
           SetEdgeStackStatus stack portainer.EdgeStackStatusError err]
  end.
Proof.
  intros Hf Hs Hid Ha Hflags retries location pull pulled dp w' Hdue Hpull.
  subst w'. rewrite (workerIteration_deploy E _ _ _ _ Hf Hs Ha). cbn zeta.
  rewrite (pullImages_eq E _ _ _ _ _ Hs).
  replace (PrePullImage s || RePullImage s) with true
    by (symmetry; apply orb_true_iff; tauto).
  cbn zeta. change (Retries (set_Retries _ s)) with retries.
  rewrite (proj2 (attempts_spec retries) Hdue).
  fold location pull. rewrite Hpull, Hid. fold pulled.
  erewrite deployStack_eq;
    [|rewrite table_log, table_poke, table_log; apply lookup_insert_eq
     |exact Hid].
  cbn zeta. cbn [Namespace set_Action set_Status set_Retries]. fold dp.
  change (calls (log pulled (poke stack _ (log pull w))))
    with ((calls w ++ [pull]) ++ [pulled]).
  rewrite <- app_assoc. cbn [app].
  destruct (error_of E (calls w ++ [pull; pulled]) dp) as [err|];
    repeat first [rewrite table_log | rewrite table_poke];
    rewrite insert_insert_eq; (split; [done|]); cbn;
    by rewrite <- !app_assoc.
Qed.

Lemma calls_about_log k c w :
  calls_about k (calls (log c w))
  = calls_about k (calls w) ++ (if concerns k c then [c] else []).
Proof.
  change (calls (log c w)) with (calls w ++ [c]). unfold calls_about.
  rewrite List.filter_app. cbn. by destruct (concerns k c).
Qed.

(** The functions of the worker on stack [j], seen from another stack. *)
Lemma pullImages_elsewhere w j n l k :
  table_wf (table w) → k ≠ j →
  let w1 := (pullImages E j n l w).2 in
  table_wf (table w1)
  ∧ table w1 !! k = table w !! k
  ∧ calls_about k (calls w1) = calls_about k (calls w).
Proof.
  intros Hwf Hne. destruct (table w !! j) as [s|] eqn:Hs.
  - pose proof (Hwf j s Hs) as Hid. cbn in Hid.
    rewrite (pullImages_eq E _ _ _ _ _ Hs).
    destruct (PrePullImage s || RePullImage s); [|done]. cbn zeta.
    destruct (attempts _).
    + destruct (error_of E (calls w) _) as [err|]; [case_bool_decide|];
        cbn [snd];
        rewrite ?calls_about_log, ?table_log, ?table_poke, ?calls_poke,
          ?calls_about_log, ?table_log;
        cbn [concerns ID set_Retries set_Status set_Action];
        rewrite ?Hid, ?bool_decide_eq_false_2, ?app_nil_r by done;
        (split; [by apply table_wf_insert|]);
        by rewrite lookup_insert_ne.
    + cbn [snd]. rewrite table_poke, calls_poke.
      split; [by apply table_wf_insert|]. by rewrite lookup_insert_ne.
  - unfold pullImages. by rewrite Hs.
Qed.

Lemma deployStack_elsewhere w j n l k :
  table_wf (table w) → k ≠ j →
  let w1 := deployStack E j n l w in
  table_wf (table w1)
  ∧ table w1 !! k = table w !! k
  ∧ calls_about k (calls w1) = calls_about k (calls w).
Proof.
  intros Hwf Hne. destruct (table w !! j) as [s|] eqn:Hs.
  - pose proof (Hwf j s Hs) as Hid. cbn in Hid.
    rewrite (deployStack_eq E _ _ _ _ _ Hs Hid). cbn zeta.
    destruct (error_of E (calls w) _) as [err|];
      rewrite ?calls_about_log, ?table_log, ?table_poke, ?calls_poke;
      cbn [concerns];
      rewrite ?bool_decide_eq_false_2, ?app_nil_r by done;
      (split; [by apply table_wf_insert|]);
      by rewrite lookup_insert_ne.
  - unfold deployStack. by rewrite Hs.
Qed.

Lemma deleteStack_elsewhere w j n l k :
  table_wf (table w) → k ≠ j →
  let w1 := deleteStack E j n l w in
  table_wf (table w1)
  ∧ table w1 !! k = table w !! k
  ∧ calls_about k (calls w1) = calls_about k (calls w).
Proof.
  intros Hwf Hne. unfold deleteStack, call.
  destruct (table w !! j) as [s|] eqn:Hs; [|done].
  pose proof (Hwf j s Hs) as Hid. cbn in Hid.
  cbn -[log calls_about set_stacks table calls].
  repeat match goal with
    | |- context [error_of E ?h ?x] =>
        destruct (error_of E h x);
        cbn -[log calls_about set_stacks table calls]
    end;
    rewrite ?table_set_stacks, ?calls_set_stacks, ?table_log,
      ?calls_about_log;
    cbn [concerns];
    rewrite ?Hid, ?bool_decide_eq_false_2, ?app_nil_r by done;
    try done.
  split; [by apply map_Forall_delete|]. by rewrite lookup_delete_ne.
Qed.

(** A turn of the worker, seen from a stack that is at rest. *)
Lemma workerIteration_at_rest order w k s :
  table_wf (table w) → table w !! k = Some s → at_rest s →
  let w' := workerIteration E order w in
  table_wf (table w')
  ∧ table w' !! k = Some s
  ∧ calls_about k (calls w') = calls_about k (calls w).
Proof.
  intros Hwf Hs [Hnp Hnr]. unfold workerIteration, nextPendingStack.
  destruct (firstPending order (table w)) as [j|] eqn:Hf.
  - destruct (firstPending_Some _ _ _ Hf) as (sj & Hsj & Hpj). rewrite Hsj.
    assert (k ≠ j) as Hne by (intros ->; congruence).
    destruct (bool_decide (Action sj = actionDeploy)
              || bool_decide (Action sj = actionUpdate)).
    + destruct (pullImages_elsewhere w j ("edge_" +:+ Name sj)
                  (FileFolder sj +:+ "/" +:+ FileName sj) k Hwf Hne)
        as (Hwf1 & Ht1 & Hc1).
      destruct (pullImages E j _ _ w) as [[err|] w1]; cbn [snd] in *.
      * by rewrite Ht1, Hc1.
      * destruct (deployStack_elsewhere w1 j ("edge_" +:+ Name sj)
                    (FileFolder sj +:+ "/" +:+ FileName sj) k Hwf1 Hne)
          as (Hwf2 & Ht2 & Hc2).
        by rewrite Ht2, Hc2, Ht1, Hc1.
    + destruct (bool_decide (Action sj = actionDelete)); [|done].
      destruct (deleteStack_elsewhere w j ("edge_" +:+ Name sj)
                  (FileFolder sj +:+ "/" +:+ FileName sj) k Hwf Hne)
        as (Hwf1 & Ht1 & Hc1).
      by rewrite Ht1, Hc1.
  - cbn [snd]. rewrite table_set_stacks, calls_set_stacks.
    split; [by apply table_wf_promote|]. split; [|done].
    rewrite lookup_fmap, Hs. cbn. unfold promote. by rewrite decide_False.
Qed.

(** X14.  The worker leaves alone what is at rest.  Through any number of
    consecutive turns of the worker, a record whose status is [Done],
    [Error] or [Deploying] stays exactly as it is, and no call is made to
    the deployer on its behalf or to the coordinator about it: a failed
    deployment is not tried again, and a stack whose pulls have used up
    [MaxRetries] stays in [Error], until the reconciler or a push makes the
    stack pending. *)
Theorem worker_leaves_rest (orders : list (list Z)) (w : World) (k : Z)
    (s : edgeStack) :
  table_wf (table w) →
  table w !! k = Some s →
  at_rest s →
  let w' := workerIterations E orders w in
  table w' !! k = Some s
  ∧ calls_about k (calls w') = calls_about k (calls w).
Proof.
  revert w. induction orders as [|order orders IH]; intros w Hwf Hs Hrest;
    [done|].
  cbn [workerIterations foldl].
  destruct (workerIteration_at_rest order w k s Hwf Hs Hrest)
    as (Hwf1 & Hs1 & Hc1).
  destruct (IH (workerIteration E order w) Hwf1 Hs1 Hrest) as [Hs2 Hc2].
  fold (workerIterations E orders (workerIteration E order w)).
  split; [done|]. by rewrite Hc2.
Qed.

Lemma deploys_log k c w :
  List.filter (is_deploy_of k) (calls (log c w))
  = List.filter (is_deploy_of k) (calls w)
    ++ (if is_deploy_of k c then [c] else []).
Proof.
  change (calls (log c w)) with (calls w ++ [c]).
  rewrite List.filter_app. cbn. by destruct (is_deploy_of k c).
Qed.

Lemma deploys_calls_about k cs :
  List.filter (is_deploy_of k) (calls_about k cs)
  = List.filter (is_deploy_of k) cs.
Proof.
  unfold calls_about. induction cs as [|c cs IH]; [done|]. cbn.
  destruct (concerns k c) eqn:Hc; cbn; rewrite IH; [done|].
  destruct c; cbn in *; by rewrite ?Hc.
Qed.

Lemma workerIteration_no_deploy order w k :
  pull_always_fails E →
  table_wf (table w) → pulls_first k w →
  let w' := workerIteration E order w in
  table_wf (table w') ∧ pulls_first k w'
  ∧ List.filter (is_deploy_of k) (calls w')
    = List.filter (is_deploy_of k) (calls w).
Proof.
  intros Hfail Hwf Hflags. unfold workerIteration, nextPendingStack.
  destruct (firstPending order (table w)) as [j|] eqn:Hf.
  2:{ cbn [snd]. rewrite calls_set_stacks.
      split; [rewrite table_set_stacks; by apply table_wf_promote|].
      split; [|done]. intros s. rewrite table_set_stacks, lookup_fmap.
      destruct (table w !! k) as [s0|] eqn:Hs0; [|done]. cbn. intros [= <-].
      unfold promote. case_decide; cbn; by apply Hflags. }
  destruct (firstPending_Some _ _ _ Hf) as (sj & Hsj & Hpj). rewrite Hsj.
  destruct (decide (k = j)) as [->|Hne].
  - (* the turn is on [k] itself *)
    pose proof (Hflags sj Hsj) as Hfl.
    pose proof (Hwf j sj Hsj) as Hid. cbn in Hid.
    destruct (bool_decide (Action sj = actionDeploy)
              || bool_decide (Action sj = actionUpdate)).
    + rewrite (pullImages_eq E _ _ _ _ _ Hsj).
      replace (PrePullImage sj || RePullImage sj) with true
        by (symmetry; apply orb_true_iff; tauto).
      cbv zeta.
      destruct (attempts (Retries (set_Retries (int_add (Retries sj) 1) sj))).
      * destruct (error_of E (calls w) _) as [err|] eqn:Herr;
          [|by destruct (Hfail _ _ _ _ Herr)].
        unfold pulls_first.
        destruct (bool_decide _);
          rewrite ?deploys_log, ?calls_poke, ?deploys_log;
          repeat first [rewrite table_log | rewrite table_poke];
          cbn [is_deploy_of]; rewrite ?app_nil_r;
          (split; [by apply table_wf_insert|]); (split; [|done]);
          intros s; rewrite lookup_insert_eq; by intros [= <-].
      * unfold pulls_first. rewrite table_poke, calls_poke.
        split; [by apply table_wf_insert|]. split; [|done].
        intros s. rewrite lookup_insert_eq. by intros [= <-].
    + destruct (bool_decide (Action sj = actionDelete)); [|done].
      unfold deleteStack, call, pulls_first. rewrite Hsj.
      cbn -[log set_stacks table calls List.filter].
      repeat match goal with
        | |- context [error_of E ?h ?x] =>
            destruct (error_of E h x);
            cbn -[log set_stacks table calls List.filter]
        end;
        rewrite ?table_set_stacks, ?calls_set_stacks, ?table_log,
          ?deploys_log;
        cbn [is_deploy_of]; rewrite ?app_nil_r; try done.
      split; [by apply map_Forall_delete|]. split; [|done].
      intros s. by rewrite Hid, lookup_delete_eq.
  - (* the turn is on another stack *)
    assert (∀ w1 : World,
              table_wf (table w1) ∧ table w1 !! k = table w !! k
              ∧ calls_about k (calls w1) = calls_about k (calls w) →
              table_wf (table w1) ∧ pulls_first k w1
              ∧ List.filter (is_deploy_of k) (calls w1)
                = List.filter (is_deploy_of k) (calls w)) as Hsame.
    { intros w1 (Hwf1 & Ht1 & Hc1). split; [done|]. split.
      - intros s. rewrite Ht1. apply Hflags.
      - by rewrite <- (deploys_calls_about k (calls w1)), Hc1,
          deploys_calls_about. }
    destruct (bool_decide (Action sj = actionDeploy)
              || bool_decide (Action sj = actionUpdate)).
    + destruct (pullImages_elsewhere w j ("edge_" +:+ Name sj)
                  (FileFolder sj +:+ "/" +:+ FileName sj) k Hwf Hne)
        as (Hwf1 & Ht1 & Hc1).
      destruct (pullImages E j _ _ w) as [[err|] w1]; cbn [snd] in *.
      * by apply Hsame.
      * destruct (deployStack_elsewhere w1 j ("edge_" +:+ Name sj)
                    (FileFolder sj +:+ "/" +:+ FileName sj) k Hwf1 Hne)
          as (Hwf2 & Ht2 & Hc2).
        apply Hsame. by rewrite Ht2, Hc2, Ht1, Hc1.
    + destruct (bool_decide (Action sj = actionDelete)); [|by apply Hsame].
      apply Hsame. by apply deleteStack_elsewhere.
Qed.

(** X15.  No deployment without the images.  If the deployer never manages
    to pull, then a stack that asks for its images to be pulled is never
    deployed by the worker: through any number of consecutive turns, in any
    order of iteration and whatever else is in the table, [Deploy] is not
    called for it. *)
Theorem no_deploy_without_pull (orders : list (list Z)) (w : World) (k : Z)
    (s : edgeStack) :
  pull_always_fails E →
  table_wf (table w) →
  table w !! k = Some s →
  PrePullImage s = true ∨ RePullImage s = true →
  List.filter (is_deploy_of k) (calls (workerIterations E orders w))
  = List.filter (is_deploy_of k) (calls w).
Proof.
  intros Hfail Hwf Hs Hfl.
  assert (Hflags : pulls_first k w) by (intros s' Hs'; by simplify_eq).
  clear Hs Hfl. revert w Hwf Hflags.
  induction orders as [|order orders IH]; intros w Hwf Hflags; [done|].
  cbn [workerIterations foldl].
  destruct (workerIteration_no_deploy order w k Hfail Hwf Hflags)
    as (Hwf1 & Hflags1 & Hd1).
  fold (workerIterations E orders (workerIteration E order w)).
  by rewrite (IH _ Hwf1 Hflags1).
Qed.

End Turns.

(** ** One deployment in flight *)

Section Exclusivity.

Variable E : Env.



















End Exclusivity.

(** ** The retry counter *)

Section Counter.

Variable E : Env.

Lemma retries_kept_refl m : retries_kept m m.
Proof. intros k s Hs. by exists s. Qed.

Lemma retries_kept_trans m1 m2 m3 :
  retries_kept m1 m2 → retries_kept m2 m3 → retries_kept m1 m3.
Proof.
  intros H12 H23 k s1 Hs1. destruct (H12 k s1 Hs1) as (s2 & Hs2 & Hr2).
  destruct (H23 k s2 Hs2) as (s3 & Hs3 & Hr3). exists s3. split; [done|].
  by rewrite Hr3.
Qed.

Lemma retries_kept_insert m k r :
  (∀ s, m !! k = Some s → Retries r = Retries s) →
  retries_kept m (<[k := r]> m).
Proof.
  intros Hr j s Hs. destruct (decide (j = k)) as [->|Hne].
  - exists r. rewrite lookup_insert_eq. split; [done|]. by apply Hr.
  - exists s. by rewrite lookup_insert_ne.
Qed.

Lemma processStack_retries_kept w stackID version :
  table_wf (table w) →
  retries_kept (table w) (table (processStack E stackID version w).2).
Proof.
  intros Hwf k s Hs. destruct (decide (k = stackID)) as [->|Hne].
  2:{ exists s. split; [|done].
      rewrite processStack_frame; [done| |done].
      intros s0 Hs0. by apply (Hwf stackID s0). }
  pose proof (Hwf stackID s Hs) as Hid. cbn in Hid.
  destruct (decide (Version s = version)) as [Hv|Hv].
  { rewrite (processStack_unchanged E _ _ _ _ Hs Hv). by exists s. }
  destruct (config_of E (calls w) stackID) as [c|err] eqn:Hc.
  - rewrite (processStack_update E _ _ _ _ _ Hs Hid Hv Hc).
    destruct (error_of E _ _) as [e|]; unfold call; cbn [snd];
      repeat first [rewrite table_log | rewrite table_poke];
      rewrite lookup_insert_eq; by eexists.
  - rewrite (processStack_fetch_failed E w stackID version err);
      [|by rewrite Hs, Hid].
    cbn [snd]. rewrite Hs.
    repeat first [rewrite table_log | rewrite table_poke].
    rewrite lookup_insert_eq. by eexists.
Qed.

Lemma processStacks_retries_kept poll order w :
  table_wf (table w) →
  retries_kept (table w) (table (processStacks E poll order w).2).
Proof.
  revert w. induction order as [|k order IH]; intros w Hwf; cbn.
  - apply retries_kept_refl.
  - destruct (poll !! k) as [v|]; [|by apply IH].
    pose proof (processStack_retries_kept w k v Hwf) as H1.
    pose proof (processStack_wf E w k v Hwf) as Hwf1.
    destruct (processStack E k v w) as [[err|] w1]; cbn [snd] in *; [done|].
    eapply retries_kept_trans; [exact H1|by apply IH].
Qed.

Lemma processRemovedStacks_retries_kept poll w :
  retries_kept (table w) (table (processRemovedStacks poll w)).
Proof.
  intros k s Hs. rewrite processRemovedStacks_lookup, Hs. cbn.
  eexists. split; [done|]. by destruct (poll !! k).
Qed.

Lemma UpdateStacksStatus_retries_kept poll order w :
  table_wf (table w) →
  retries_kept (table w) (table (UpdateStacksStatus E poll order w).2).
Proof.
  intros Hwf. unfold UpdateStacksStatus.
  destruct (negb (isEnabled (manager w))); [apply retries_kept_refl|].
  pose proof (processStacks_retries_kept poll order w Hwf) as H1.
  destruct (processStacks E poll order w) as [[err|] w1]; cbn [snd] in *;
    [done|].
  eapply retries_kept_trans; [exact H1|].
  apply processRemovedStacks_retries_kept.
Qed.

Lemma buildDeployerParams_retries_kept d del w :
  table_wf (table w) →
  retries_kept (table w) (table (buildDeployerParams E d del w).2).
Proof.
  intros Hwf. rewrite buildDeployerParams_eq. cbv zeta.
  assert (∀ w1 : World, table w1 = table w →
            retries_kept (table w)
              (table (match table w !! EdgeStackData.ID d with
                      | Some s =>
                          if negb del
                             && bool_decide (Version s = EdgeStackData.Version d)
                          then (None (A:=error), w1)
                          else
                            (None,
                             poke (ID s)
                               (pushed E (engine (manager w)) d
                                  (if del then actionDelete else actionUpdate) s)
                               (poke (EdgeStackData.ID d)
                                  (pushed E (engine (manager w)) d
                                     (if del then actionDelete
                                      else actionUpdate) s) w1))
                      | None =>
                          (None,
                           poke (EdgeStackData.ID d)
                             (pushed E (engine (manager w)) d actionDeploy
                                (new_edgeStack (EdgeStackData.ID d)
                                   actionDeploy StatusPending 0)) w1)
                      end).2)) as Hcase.
  { intros w1 Hw1.
    destruct (table w !! EdgeStackData.ID d) as [s|] eqn:Hs.
    - destruct (negb del && _); cbn [snd];
        [rewrite Hw1; apply retries_kept_refl|].
      rewrite (Hwf _ _ Hs), poke_poke, table_poke, Hw1.
      apply retries_kept_insert. intros s0 Hs0. by simplify_eq.
    - cbn [snd]. rewrite table_poke, Hw1.
      apply retries_kept_insert. intros s0 Hs0. by simplify_eq. }
  destruct del.
  - by apply Hcase.
  - unfold call. destruct (error_of E (calls w) _); cbn [snd].
    + rewrite table_log. apply retries_kept_refl.
    + apply Hcase. by rewrite table_log.
Qed.

Lemma workerStep_retries order pc w k s s' :
  table_wf (table w) →
  table w !! k = Some s →
  table (workerStep E order pc w).2 !! k = Some s' →
  Retries s' = Retries s
  ∨ (Retries s' = int_add (Retries s) 1
     ∧ (PrePullImage s = true ∨ RePullImage s = true)
     ∧ ∃ n l, pc = AtPull k n l).
Proof.
  intros Hwf Hs. destruct pc as [|stack|stack n l|stack n l|stack n l|stack n l|stack n l
                   |stack n l|stack n l|stack n l|stack];
    cbn [workerStep].
  - unfold nextPendingStack.
    destruct (firstPending order (table w)); cbn [fst snd].
    + rewrite Hs. intros [= <-]. by left.
    + rewrite table_set_stacks, lookup_fmap, Hs. cbn. intros [= <-].
      left. unfold promote. by case_decide.
  - destruct (table w !! stack); cbn [snd]; rewrite Hs; intros [= <-];
      by left.
  - destruct (table w !! stack); [destruct (bool_decide _)|]; cbn [snd];
      rewrite Hs; intros [= <-]; by left.
  - destruct (table w !! stack); [destruct (bool_decide _)|]; cbn [snd];
      rewrite Hs; intros [= <-]; by left.
  - destruct (table w !! stack); [destruct (bool_decide _)|]; cbn [snd];
      rewrite Hs; intros [= <-]; by left.
  - destruct (decide (k = stack)) as [->|Hne].
    2:{ pose proof (pullImages_frame E w stack n l k Hne) as Hfr.
        destruct (pullImages E stack n l w) as [[err|] w1]; cbn [snd] in *;
          rewrite Hfr, Hs; intros [= <-]; by left. }
    rewrite (pullImages_eq E _ _ _ _ _ Hs).
    destruct (PrePullImage s || RePullImage s) eqn:Hfl.
    2:{ cbn [snd]. rewrite Hs. intros [= <-]. by left. }
    apply orb_true_iff in Hfl. cbv zeta.
    destruct (attempts (Retries (set_Retries (int_add (Retries s) 1) s))).
    + destruct (error_of E (calls w) _) as [err|];
        [destruct (bool_decide _)|]; cbn [snd];
        repeat first [rewrite table_log | rewrite table_poke];
        rewrite lookup_insert_eq; intros [= <-]; right; by eauto.
    + cbn [snd]. rewrite table_poke, lookup_insert_eq. intros [= <-].
      right. by eauto.
  - cbn [snd]. destruct (decide (k = stack)) as [->|Hne].
    + rewrite (deployStack_eq E _ _ _ _ _ Hs (Hwf _ _ Hs)). cbv zeta.
      destruct (error_of E (calls w) _);
        repeat first [rewrite table_log | rewrite table_poke];
        rewrite lookup_insert_eq; intros [= <-]; by left.
    + destruct (table w !! stack) as [s0|] eqn:Hs0.
      * rewrite (deployStack_eq E _ _ _ _ _ Hs0 (Hwf _ _ Hs0)). cbv zeta.
        destruct (error_of E (calls w) _);
          repeat first [rewrite table_log | rewrite table_poke];
          rewrite lookup_insert_ne by done; rewrite Hs; intros [= <-];
          by left.
      * unfold deployStack. rewrite Hs0, Hs. intros [= <-]. by left.
  - destruct (table w !! stack); [|cbn [snd]; rewrite Hs; intros [= <-]; by left].
    unfold call. destruct (error_of E (calls w) _); cbn [snd];
      rewrite table_log, Hs; intros [= <-]; by left.
  - unfold call. destruct (error_of E (calls w) _); cbn [snd];
      rewrite table_log, Hs; intros [= <-]; by left.
  - destruct (table w !! stack); [|cbn [snd]; rewrite Hs; intros [= <-]; by left].
    unfold call. destruct (error_of E (calls w) _); cbn [snd];
      rewrite table_log, Hs; intros [= <-]; by left.
  - destruct (table w !! stack) as [s0|]; cbn [snd].
    + rewrite table_set_stacks. intros [_ Hs']%lookup_delete_Some.
      left. by simplify_eq.
    + rewrite Hs. intros [= <-]. by left.
Qed.

(** X18.  The retry counter is never reset.  As long as the record of a
    stack stays in the table, no operation brings its counter back: a
    snapshot that changes the version, a push and [deployStack] leave it as
    it is, also after a successful pull and deployment, and the only step
    that changes it is [pullImages] for a stack that asks for its images,
    which adds one.  The throttle of [pullImages] therefore counts the pulls
    of all the versions the stack has had. *)
Theorem Retries_never_reset (op : Op) (sys : System) (k : Z)
    (s s' : edgeStack) :
  table_wf (table sys.2) →
  table sys.2 !! k = Some s →
  table (step E op sys).2 !! k = Some s' →
  Retries s' = Retries s
  ∨ (Retries s' = int_add (Retries s) 1
     ∧ (PrePullImage s = true ∨ RePullImage s = true)
     ∧ ∃ order n l, op = OpWorker order ∧ sys.1 = AtPull k n l).
Proof.
  intros Hwf Hs. destruct op; cbn [step fst snd].
  - intros Hs'. left.
    destruct (UpdateStacksStatus_retries_kept pollResponseStacks order _
                Hwf k s Hs) as (s1 & Hs1 & Hr). by simplify_eq.
  - intros Hs'. left.
    destruct (buildDeployerParams_retries_kept stackData false _
                Hwf k s Hs) as (s1 & Hs1 & Hr).
    unfold DeployStack in Hs'. by simplify_eq.
  - intros Hs'. left.
    destruct (buildDeployerParams_retries_kept stackData true _
                Hwf k s Hs) as (s1 & Hs1 & Hr).
    unfold DeleteStack in Hs'. by simplify_eq.
  - intros Hs'.
    destruct (workerStep_retries order sys.1 sys.2 k s s' Hwf Hs Hs')
      as [?|(? & ? & n & l & ?)]; [by left|]. right. by eauto 10.
Qed.

End Counter.

(** ** The traffic with the collaborators *)

Section Protocol.

Variable E : Env.

Lemma writes_manifest_writeManifest kind k name content credentials :
  writes_manifest E k (writeManifest E kind k name content credentials) = true.
Proof.
  unfold writes_manifest, writeManifest.
  by rewrite !bool_decide_eq_true_2.
Qed.

Lemma processStack_exchange w stackID version :
  (∀ s, table w !! stackID = Some s → ID s = stackID) →
  ∃ xs rest,
    calls (processStack E stackID version w).2
    = calls w ++ flat_map exchange xs ++ rest
    ∧ Forall (λ x, x.1 = stackID ∧ writes_manifest E x.1 x.2 = true) xs
    ∧ cut_short E rest
    ∧ ((processStack E stackID version w).1 = None → rest = []).
Proof.
  intros Hwf.
  assert (Hnone : ∃ xs rest,
            calls w = calls w ++ flat_map exchange xs ++ rest
            ∧ Forall (λ x, x.1 = stackID
                           ∧ writes_manifest E x.1 x.2 = true) xs
            ∧ cut_short E rest
            ∧ (None (A:=error) = None → rest = [])).
  { exists [], []. cbn. rewrite app_nil_r. by repeat split; [|left]. }
  assert (Hfetch : ∀ err, ∃ xs rest,
            calls w ++ [GetEdgeStackConfig stackID]
            = calls w ++ flat_map exchange xs ++ rest
            ∧ Forall (λ x, x.1 = stackID
                           ∧ writes_manifest E x.1 x.2 = true) xs
            ∧ cut_short E rest
            ∧ (Some err = None (A:=error) → rest = [])).
  { intros err. exists [], [GetEdgeStackConfig stackID]. cbn.
    repeat split; [done| |done]. right. exists stackID. by left. }
  assert (Hwrite : ∀ wr err, writes_manifest E stackID wr = true →
            ∃ xs rest,
              (calls w ++ [GetEdgeStackConfig stackID]) ++ [wr]
              = calls w ++ flat_map exchange xs ++ rest
              ∧ Forall (λ x, x.1 = stackID
                             ∧ writes_manifest E x.1 x.2 = true) xs
              ∧ cut_short E rest
              ∧ (Some err = None (A:=error) → rest = [])).
  { intros wr err Hwr. exists [], [GetEdgeStackConfig stackID; wr]. cbn.
    rewrite <- app_assoc. repeat split; [done| |done].
    right. exists stackID. right. by exists wr. }
  assert (Hack : ∀ wr (e : option error),
            writes_manifest E stackID wr = true →
            ∃ xs rest,
              ((calls w ++ [GetEdgeStackConfig stackID]) ++ [wr])
              ++ [SetEdgeStackStatus stackID
                    portainer.EdgeStackStatusAcknowledged ""]
              = calls w ++ flat_map exchange xs ++ rest
              ∧ Forall (λ x, x.1 = stackID
                             ∧ writes_manifest E x.1 x.2 = true) xs
              ∧ cut_short E rest
              ∧ (e = None → rest = [])).
  { intros wr e Hwr. exists [(stackID, wr)], []. cbn.
    rewrite <- !app_assoc. repeat split; [by constructor|by left]. }
  destruct (table w !! stackID) as [s|] eqn:Hs.
  - specialize (Hwf s eq_refl).
    destruct (decide (Version s = version)) as [Hv|Hv].
    { by rewrite (processStack_unchanged E _ _ _ _ Hs Hv). }
    destruct (config_of E (calls w) stackID) as [c|err] eqn:Hc.
    + rewrite (processStack_update E _ _ _ _ _ Hs Hwf Hv Hc). cbv zeta.
      destruct (error_of E _ _) as [e|]; unfold call; cbn [fst snd];
        repeat first [rewrite calls_poke
                     | progress change (calls (log ?c ?w0))
                         with (calls w0 ++ [c])].
      * apply Hwrite, writes_manifest_writeManifest.
      * apply Hack, writes_manifest_writeManifest.
    + rewrite (processStack_fetch_failed E w stackID version err);
        [|by rewrite Hs, Hwf].
      rewrite Hs, Hwf. cbn [fst snd].
      change (calls (log ?c ?w0)) with (calls w0 ++ [c]).
      rewrite calls_poke. apply Hfetch.
  - destruct (config_of E (calls w) stackID) as [c|err] eqn:Hc.
    + rewrite (processStack_deploy E _ _ _ _ Hs Hc). cbv zeta.
      destruct (error_of E _ _) as [e|]; unfold call; cbn [fst snd];
        repeat first [rewrite calls_poke
                     | progress change (calls (log ?c ?w0))
                         with (calls w0 ++ [c])].
      * apply Hwrite, writes_manifest_writeManifest.
      * apply Hack, writes_manifest_writeManifest.
    + rewrite (processStack_fetch_failed E w stackID version err);
        [|by rewrite Hs].
      rewrite Hs. cbn [fst snd].
      change (calls (log ?c ?w0)) with (calls w0 ++ [c]). apply Hfetch.
Qed.

Lemma processStacks_exchange poll order w :
  table_wf (table w) →
  ∃ xs rest,
    calls (processStacks E poll order w).2
    = calls w ++ flat_map exchange xs ++ rest
    ∧ Forall (λ x, is_Some (poll !! x.1)
                   ∧ writes_manifest E x.1 x.2 = true) xs
    ∧ cut_short E rest
    ∧ ((processStacks E poll order w).1 = None → rest = []).
Proof.
  revert w. induction order as [|k order IH]; intros w Hwf; cbn.
  { exists [], []. cbn. rewrite app_nil_r. by repeat split; [|left]. }
  destruct (poll !! k) as [v|] eqn:Hk; [|by apply IH].
  destruct (processStack_exchange w k v (λ s Hs, Hwf k s Hs))
    as (xs1 & rest1 & Hc1 & Hx1 & Hr1 & He1).
  pose proof (processStack_wf E w k v Hwf) as Hwf1.
  destruct (processStack E k v w) as [[err|] w1]; cbn [fst snd] in *.
  - exists xs1, rest1. repeat split; [done| |done..].
    eapply Forall_impl; [exact Hx1|]. intros x [-> ?]. by rewrite Hk.
  - rewrite (He1 eq_refl), app_nil_r in Hc1.
    destruct (IH w1 Hwf1) as (xs2 & rest2 & Hc2 & Hx2 & Hr2 & He2).
    exists (xs1 ++ xs2), rest2. split; [|split; [|done]].
    + rewrite Hc2, Hc1, flat_map_app, <- !app_assoc. done.
    + apply Forall_app. split; [|done]. eapply Forall_impl; [exact Hx1|].
      intros x [-> ?]. by rewrite Hk.
Qed.

(** X19.  The traffic of the reconciler.  Whatever the snapshot, what
    [UpdateStacksStatus] adds to the calls is a sequence of complete
    exchanges, each for a stack of the snapshot: the fetch of its
    configuration, one write into the folder of that stack, with mode 0644,
    and the acknowledgment, in this order.  Nothing follows them if the
    function returns nil; on an error they may be followed by one exchange
    that stops after the fetch or after the write.  So the reconciler never
    calls the deployer, removes nothing from disk, reports no status other
    than [Acknowledged] and acknowledges no stack whose manifest it has not
    just written. *)
Theorem reconciler_exchanges (w : World) (pollResponseStacks : gmap Z Z)
    (order : list Z) :
  table_wf (table w) →
  let r := UpdateStacksStatus E pollResponseStacks order w in
  ∃ xs rest,
    calls r.2 = calls w ++ flat_map exchange xs ++ rest
    ∧ Forall (λ x, is_Some (pollResponseStacks !! x.1)
                   ∧ writes_manifest E x.1 x.2 = true) xs
    ∧ cut_short E rest
    ∧ (r.1 = None → rest = []).
Proof.
  intros Hwf r. subst r. unfold UpdateStacksStatus.
  destruct (negb (isEnabled (manager w))).
  { exists [], []. cbn. rewrite app_nil_r. by repeat split; [|left]. }
  destruct (processStacks_exchange pollResponseStacks order w Hwf)
    as (xs & rest & Hc & Hx & Hr & He).
  exists xs, rest.
  destruct (processStacks E pollResponseStacks order w) as [[err|] w1];
    cbn [fst snd] in *; [done|].
  unfold processRemovedStacks. by rewrite calls_set_stacks.
Qed.

(** X20.  The traffic of the worker.  A turn that finds no pending stack
    calls nobody.  A turn on the pending stack [k] makes at most four calls,
    all of them on behalf of [k]: the deployer for project [edge_<name>] and
    the manifest of the record, [os.RemoveAll] on the directory of that
    manifest, and reports about the stack.  The worker never fetches a
    configuration, never writes a file and never reports [Acknowledged]. *)
Theorem worker_traffic (order : list Z) (w : World) :
  let w' := workerIteration E order w in
  match firstPending order (table w) with
  | None => calls w' = calls w
  | Some k =>
      ∀ s, table w !! k = Some s →
           ∃ cs, calls w' = calls w ++ cs
                 ∧ (length cs ≤ 4)%nat
                 ∧ forallb (worker_call E k s) cs = true
  end.
Proof.
  cbv zeta. unfold workerIteration, nextPendingStack.
  destruct (firstPending order (table w)) as [k|]; [|done].
  intros s Hs. rewrite Hs.
  assert (Hnil : ∃ cs, calls w = calls w ++ cs ∧ (length cs ≤ 4)%nat
                       ∧ forallb (worker_call E k s) cs = true).
  { exists []. rewrite app_nil_r. cbn. split; [done|]. split; [lia|done]. }
  destruct (bool_decide (Action s = actionDeploy)
            || bool_decide (Action s = actionUpdate)).
  - rewrite (pullImages_eq E _ _ _ _ _ Hs).
    destruct (PrePullImage s || RePullImage s).
    + cbv zeta.
      destruct (attempts (Retries (set_Retries (int_add (Retries s) 1) s))).
      * destruct (error_of E (calls w) _) as [err|].
        -- destruct (bool_decide _).
           ++ eexists [_]. rewrite calls_poke. split; [done|].
              split; [cbn; lia|]. cbn. by rewrite bool_decide_eq_true_2.
           ++ eexists [_; _].
              change (calls (log ?c ?w0)) with (calls w0 ++ [c]).
              rewrite calls_poke.
              change (calls (log ?c ?w0)) with (calls w0 ++ [c]).
              rewrite <- app_assoc. split; [done|]. split; [cbn; lia|].
              cbn. by rewrite !bool_decide_eq_true_2.
        -- unfold deployStack, call.
           repeat first [rewrite table_log | rewrite table_poke].
           rewrite lookup_insert_eq. cbn -[String.append].
           destruct (error_of E _ _); cbn -[String.append];
             eexists [_; _; _; _]; rewrite <- !app_assoc;
             (split; [done|]); (split; [cbn; lia|]);
             cbn -[String.append]; by rewrite !bool_decide_eq_true_2.
      * rewrite calls_poke. done.
    + unfold deployStack, call. rewrite Hs. cbn -[String.append].
      destruct (error_of E _ _); cbn -[String.append];
        eexists [_; _]; rewrite <- !app_assoc;
        (split; [done|]); (split; [cbn; lia|]);
        cbn -[String.append]; by rewrite !bool_decide_eq_true_2.
  - destruct (bool_decide (Action s = actionDelete)); [|done].
    unfold deleteStack, call. rewrite Hs. cbn -[String.append].
    destruct (error_of E _ _); cbn -[String.append].
    { eexists [_]. split; [done|]. split; [cbn; lia|].
      cbn -[String.append]. by rewrite !bool_decide_eq_true_2. }
    destruct (error_of E _ _); cbn -[String.append].
    { eexists [_; _]. rewrite <- !app_assoc. split; [done|].
      split; [cbn; lia|].
      cbn -[String.append]. by rewrite !bool_decide_eq_true_2. }
    destruct (error_of E _ _); cbn -[String.append];
      eexists [_; _; _]; rewrite <- !app_assoc;
      (split; [done|]); (split; [cbn; lia|]);
      cbn -[String.append]; by rewrite !bool_decide_eq_true_2.
Qed.

End Protocol.

(** ** A fetch that fails *)

Section Staleness.

Variable E : Env.

(** X21.  A failed fetch is taken for an update.  The snapshot gives a new
    version for a stack that the table holds, and the coordinator fails to
    return the configuration.  [processStack] returns the error, but the
    record already carries the new version, action [Update] and status
    [Pending], with the name, the manifest and the flags of the old version.
    The same entry is then skipped as unchanged, and the worker, when it
    picks the stack, deploys the old manifest and reports [Ok]: the record
    ends [Done] at the new version although the configuration of that
    version was never fetched and no manifest was written for it. *)
Theorem failed_fetch_deploys_stale (order : list Z) (w : World)
    (k version : Z) (s : edgeStack) (err : error) :
  table w !! k = Some s → ID s = k → Version s ≠ version →
  config_of E (calls w) k = Err err →
  PrePullImage s = false → RePullImage s = false →
  let w1 := (processStack E k version w).2 in
  let dp :=
    Deploy k ("edge_" +:+ Name s) [FileFolder s +:+ "/" +:+ FileName s]
      (Namespace s) in
  (processStack E k version w).1 = Some err
  ∧ calls w1 = calls w ++ [GetEdgeStackConfig k]
  ∧ processStack E k version w1 = (None, w1)
  ∧ (firstPending order (table w1) = Some k →
     error_of E (calls w1) dp = None →
     let w2 := workerIteration E order w1 in
     table w2 !! k
     = Some (set_Status StatusDone
               (set_Action actionIdle (set_Version version s)))
     ∧ calls w2
       = calls w1 ++ [dp; SetEdgeStackStatus k portainer.EdgeStackStatusOk ""]).
Proof.
  intros Hs Hid Hv Hc Hpre Hre.
  rewrite (processStack_fetch_failed E w k version err)
    by (by rewrite Hs, Hid).
  rewrite Hs, Hid. cbn [fst snd]. cbv zeta.
  set (s1 := set_Status StatusPending
               (set_Version version (set_Action actionUpdate s))).
  set (w1 := log (GetEdgeStackConfig k) (poke k s1 w)).
  set (dp := Deploy k ("edge_" +:+ Name s)
               [FileFolder s +:+ "/" +:+ FileName s] (Namespace s)).
  assert (Hs1 : table w1 !! k = Some s1).
  { subst w1. rewrite table_log, table_poke. apply lookup_insert_eq. }
  split; [done|]. split; [done|].
  split; [by apply processStack_unchanged with s1|].
  intros Hf Hdp.
  rewrite (workerIteration_deploy E _ _ _ _ Hf Hs1) by (by right).
  cbn zeta.
  rewrite (pullImages_eq E _ _ _ _ _ Hs1).
  change (PrePullImage s1) with (PrePullImage s).
  change (RePullImage s1) with (RePullImage s).
  rewrite Hpre, Hre. cbn [orb].
  rewrite (deployStack_eq E _ _ _ _ _ Hs1 Hid). cbn zeta.
  change (Name s1) with (Name s). change (FileFolder s1) with (FileFolder s).
  change (FileName s1) with (FileName s).
  change (Namespace s1) with (Namespace s). fold dp. rewrite Hdp.
  rewrite !table_log, table_poke, lookup_insert_eq. split; [done|].
  cbn. by rewrite <- app_assoc.
Qed.

End Staleness.

(** ** The queue of the worker *)

Section Drain.

Variable E : Env.

Lemma pending_lookup m k s :
  pending m !! k = Some s ↔ m !! k = Some s ∧ Status s = StatusPending.
Proof. unfold pending. by rewrite map_lookup_filter_Some. Qed.

Lemma workerIterations_drain orders w :
  table_wf (table w) →
  (∀ k s, table w !! k = Some s → Status s = StatusPending → deployable s) →
  Forall (λ order, ∀ k, is_Some (table w !! k) → k ∈ order) orders →
  length orders = size (pending (table w)) →
  ∀ k s, table w !! k = Some s →
    ∃ s', table (workerIterations E orders w) !! k = Some s'
          ∧ (Status s = StatusPending →
             Action s' = actionIdle
             ∧ (Status s' = StatusDone ∨ Status s' = StatusError)
             ∧ Version s' = Version s)
          ∧ (Status s ≠ StatusPending → s' = s).
Proof.
  revert w. induction orders as [|o os IH]; intros w Hwf Hdep Hcov Hlen k s Hs.
  - exists s. split; [done|]. split; [|done]. intros Hp. exfalso.
    symmetry in Hlen. apply map_size_empty_inv in Hlen.
    assert (pending (table w) !! k = Some s) as Hk by (by apply pending_lookup).
    by rewrite Hlen, lookup_empty in Hk.
  - cbn [length] in Hlen.
    assert (pending (table w) ≠ ∅) as Hne.
    { intros Hemp. by rewrite Hemp, map_size_empty in Hlen. }
    destruct (map_choose _ Hne) as (i & x & Hi).
    apply pending_lookup in Hi as [Hi Hpi].
    apply Forall_cons in Hcov as [Ho Hcov].
    destruct (firstPending o (table w)) as [j|] eqn:Hf.
    2:{ exfalso. eapply (firstPending_None _ _ Hf i x); [|done..].
        apply Ho. by exists x. }
    destruct (firstPending_Some _ _ _ Hf) as (sj & Hsj & Hpj).
    destruct (Hdep j sj Hsj Hpj) as (Ha & Hpre & Hre).
    pose proof (Hwf j sj Hsj) as Hid. cbn in Hid.
    assert (∃ r, table (workerIteration E o w) = <[j := r]> (table w)
                 ∧ ID r = j ∧ Action r = actionIdle
                 ∧ (Status r = StatusDone ∨ Status r = StatusError)
                 ∧ Version r = Version sj) as (r & Ht & Hidr & Har & Hsr & Hvr).
    { rewrite (workerIteration_deploy E _ _ _ _ Hf Hsj Ha). cbn zeta.
      rewrite (pullImages_eq E _ _ _ _ _ Hsj), Hpre, Hre. cbn [orb].
      rewrite (deployStack_eq E _ _ _ _ _ Hsj Hid). cbn zeta.
      destruct (error_of E (calls w) _); eexists;
        rewrite !table_log, table_poke; (split; [done|]); cbn; by eauto. }
    cbn [workerIterations foldl]. fold (workerIterations E os (workerIteration E o w)).
    assert (Status r ≠ StatusPending) as Hnp by (by destruct Hsr as [->| ->]).
    specialize (IH (workerIteration E o w)). rewrite Ht in IH.
    assert (Hstep : ∀ k s, <[j := r]> (table w) !! k = Some s →
              ∃ s', table (workerIterations E os (workerIteration E o w)) !! k
                    = Some s'
                    ∧ (Status s = StatusPending →
                       Action s' = actionIdle
                       ∧ (Status s' = StatusDone ∨ Status s' = StatusError)
                       ∧ Version s' = Version s)
                    ∧ (Status s ≠ StatusPending → s' = s)).
    { apply IH.
      - by apply table_wf_insert.
      - intros k0 s0. destruct (decide (k0 = j)) as [->|Hkj].
        + rewrite lookup_insert_eq. by intros [= <-].
        + rewrite lookup_insert_ne by done. apply Hdep.
      - eapply Forall_impl; [exact Hcov|]. intros o' Ho' k0 Hk0. apply Ho'.
        destruct (decide (k0 = j)) as [->|Hkj]; [by exists sj|].
        by rewrite lookup_insert_ne in Hk0.
      - unfold pending. rewrite map_filter_insert_False by done.
        rewrite map_filter_delete, map_size_delete_Some.
        + fold (pending (table w)). lia.
        + exists sj. by apply pending_lookup. }
    destruct (decide (k = j)) as [->|Hkj].
    + destruct (Hstep j r (lookup_insert_eq _ _ _)) as (s' & Hs' & _ & Hsame).
      rewrite (Hsame Hnp) in Hs'. exists r. split; [done|].
      assert (s = sj) as -> by congruence. by split.
    + apply Hstep. by rewrite lookup_insert_ne.
Qed.

(** X22.  The worker drains the queue.  Suppose every pending record is to
    be deployed or updated and none asks for its images.  Then as many
    turns of the worker as there are pending records, each ranging over the
    table in any order, deal with all of them: every record that was pending
    ends with action [Idle], status [Done] or [Error] and its version, and
    every other record is as it was.  One turn handles exactly one stack,
    and no turn is lost on a stack already handled. *)
Theorem worker_drains (orders : list (list Z)) (w : World) :
  table_wf (table w) →
  (∀ k s, table w !! k = Some s → Status s = StatusPending → deployable s) →
  Forall (range_of (table w)) orders →
  length orders = size (pending (table w)) →
  ∀ k s, table w !! k = Some s →
    ∃ s', table (workerIterations E orders w) !! k = Some s'
          ∧ (Status s = StatusPending →
             Action s' = actionIdle
             ∧ (Status s' = StatusDone ∨ Status s' = StatusError)
             ∧ Version s' = Version s)
          ∧ (Status s ≠ StatusPending → s' = s).
Proof.
  intros Hwf Hdep Hr. apply workerIterations_drain; [done..|].
  eapply Forall_impl; [exact Hr|]. intros o Ho k Hk.
  by apply (range_of_elem _ _ _ Ho).
Qed.

End Drain.

(** * Instances of the further properties *)


(** A manager that has not been started launches its one worker. *)
Lemma Start_once_witness :
  ∃ w1, Start demo_env fresh_world = (None, w1)
        ∧ workers w1 = 1%nat
        ∧ Start demo_env w1 = (None, w1).
Proof.
  destruct (Start_once demo_env fresh_world 5000 eq_refl eq_refl)
    as (w1 & Hstart & _ & _ & Hw & _ & _ & Hagain).
  exists w1. split; [exact Hstart|]. split; [exact Hw|exact Hagain].
Defined.

(** The switch to Nomad fails once and then passes for done. *)
Lemma SetEngineStatus_failed_not_retried_witness :
  ∃ w1,
    SetEngineStatus nomadless_env EngineTypeNomad demo_world
      = (Some "nomad: no address", w1)
    ∧ engine (manager w1) = EngineTypeNomad
    ∧ deployer (manager w1) = None
    ∧ SetEngineStatus nomadless_env EngineTypeNomad w1 = (None, w1).
Proof.
  assert (Hne : EngineTypeNomad ≠ engine (manager demo_world))
    by discriminate.
  destruct (SetEngineStatus_failed_not_retried nomadless_env demo_world
              EngineTypeNomad "nomad: no address" Hne eq_refl)
    as (w1 & Hset & Hen & Hdep & _ & _ & Hagain).
  exists w1. split; [exact Hset|]. split; [exact Hen|].
  split; [exact Hdep|exact Hagain].
Defined.

(** Version 2 of stack 7 is pushed while version 1 is deployed. *)
Lemma DeployStack_cases_witness :
  table (DeployStack demo_env demo_push
           (demo_world_7 actionIdle StatusDone 5)).2 !! 7
  = Some (mkEdgeStack 7 "web" 2 "/data/7" "docker-compose.yml" StatusPending
            actionUpdate [] "" false false 5).
Proof.
  destruct (DeployStack_cases demo_env
              (demo_world_7 actionIdle StatusDone 5) demo_push eq_refl)
    as (_ & Hupd & _).
  assert (Hv : Version (demo_stack actionIdle StatusDone 5)
               ≠ EdgeStackData.Version demo_push) by discriminate.
  rewrite (Hupd (demo_stack actionIdle StatusDone 5) eq_refl eq_refl Hv).
  reflexivity.
Defined.

(** The snapshot lists stack 8 and omits stack 7, which is deployed. *)
Lemma snapshot_applied_witness :
  let w' := (UpdateStacksStatus demo_env {[8 := 1]} [8]
               (demo_world_7 actionIdle StatusDone 0)).2 in
  (∃ s, table w' !! 8 = Some s ∧ Version s = 1)
  ∧ table w' !! 7 = Some (demo_stack actionDelete StatusPending 0).
Proof.
  intros w'.
  assert (Hwf : table_wf (table (demo_world_7 actionIdle StatusDone 0))).
  { unfold table_wf. apply (bool_decide_unpack _). vm_compute. exact I. }
  assert (Hr : range_of ({[8 := 1]} : gmap Z Z) [8])
    by (vm_compute; reflexivity).
  assert (Hu : UpdateStacksStatus demo_env {[8 := 1]} [8]
                 (demo_world_7 actionIdle StatusDone 0) = (None, w'))
    by (by vm_compute).
  destruct (snapshot_applied demo_env
              (demo_world_7 actionIdle StatusDone 0) w' {[8 := 1]} [8]
              Hwf eq_refl Hr Hu) as (_ & Hin & Hout).
  split.
  - apply (Hin 8 1). reflexivity.
  - rewrite (Hout 7) by reflexivity. reflexivity.
Defined.

(** The same snapshot once more. *)
Lemma UpdateStacksStatus_idempotent_witness :
  let w' := (UpdateStacksStatus demo_env {[8 := 1]} [8]
               (demo_world_7 actionIdle StatusDone 0)).2 in
  UpdateStacksStatus demo_env {[8 := 1]} [8] w' = (None, w').
Proof.
  intros w'.
  assert (Hwf : table_wf (table (demo_world_7 actionIdle StatusDone 0))).
  { unfold table_wf. apply (bool_decide_unpack _). vm_compute. exact I. }
  assert (Hu : UpdateStacksStatus demo_env {[8 := 1]} [8]
                 (demo_world_7 actionIdle StatusDone 0) = (None, w'))
    by (by vm_compute).
  exact (UpdateStacksStatus_idempotent demo_env
           (demo_world_7 actionIdle StatusDone 0) w' {[8 := 1]} [8] Hwf Hu).
Defined.

(** Nothing is pending: the sweep makes the stack in [Retry] pending. *)
Lemma nextPendingStack_selects_witness :
  ∃ w', nextPendingStack [7] (demo_world_7 actionDeploy StatusRetry 3)
        = (None, w')
        ∧ table w' !! 7 = Some (demo_stack actionDeploy StatusPending 3).
Proof.
  assert (Hr : range_of (table (demo_world_7 actionDeploy StatusRetry 3)) [7])
    by (vm_compute; reflexivity).
  pose proof (nextPendingStack_selects [7]
                (demo_world_7 actionDeploy StatusRetry 3) Hr) as H.
  destruct (nextPendingStack [7] (demo_world_7 actionDeploy StatusRetry 3))
    as [[k|] w'] eqn:Hn; [by vm_compute in Hn|].
  exists w'. split; [reflexivity|].
  destruct H as (_ & Hretry & _).
  apply (Hretry 7 (demo_stack actionDeploy StatusRetry 3));
    reflexivity.
Defined.

(** The plain stack 8 is deployed. *)
Lemma deploy_phase_witness :
  let w' := workerIteration demo_env [8]
              (plain_world actionDeploy StatusPending 1) in
  table w' !! 8 = Some (plain_stack 8 actionIdle StatusDone 1)
  ∧ calls w'
    = [Deploy 8 "edge_db" ["/data/db/docker-compose.yml"] "";
       SetEdgeStackStatus 8 portainer.EdgeStackStatusOk ""].
Proof.
  intros w'.
  destruct (deploy_phase demo_env [8]
              (plain_world actionDeploy StatusPending 1) 8
              (plain_stack 8 actionDeploy StatusPending 1)
              eq_refl eq_refl eq_refl (or_introl eq_refl) eq_refl eq_refl)
    as [Ht Hc].
  split.
  - subst w'. rewrite Ht. apply lookup_insert_eq.
  - exact Hc.
Defined.

(** The images of stack 7 are pulled, and the stack is deployed. *)
Lemma pull_then_deploy_witness :
  calls (workerIteration demo_env [7]
           (demo_world_7 actionDeploy StatusPending 0))
  = [Pull 7 "edge_web" ["/data/7/docker-compose.yml"];
     SetEdgeStackStatus 7 portainer.EdgeStackStatusImagesPulled "";
     Deploy 7 "edge_web" ["/data/7/docker-compose.yml"] "";
     SetEdgeStackStatus 7 portainer.EdgeStackStatusOk ""].
Proof.
  assert (Hdue : int_add 0 1 ≤ RetryInterval
                 ∨ int_add 0 1 `mod` RetryInterval = 0)
    by (left; by vm_compute).
  destruct (pull_then_deploy demo_env [7]
              (demo_world_7 actionDeploy StatusPending 0) 7
              (demo_stack actionDeploy StatusPending 0)
              eq_refl eq_refl eq_refl (or_introl eq_refl) (or_introl eq_refl)
              Hdue eq_refl)
    as [_ Hc].
  exact Hc.
Defined.

(** Stack 7 has failed for good; the worker deploys stack 8 and does not
    come back to stack 7. *)
Lemma worker_leaves_rest_witness :
  let w' := workerIterations demo_env [[7; 8]; [8; 7]; [7; 8]] mixed_world in
  table w' !! 7 = Some (demo_stack actionIdle StatusError 120960)
  ∧ calls_about 7 (calls w') = [].
Proof.
  assert (Hwf : table_wf (table mixed_world)).
  { unfold table_wf. apply (bool_decide_unpack _). vm_compute. exact I. }
  assert (Hrest : at_rest (demo_stack actionIdle StatusError 120960))
    by (by split).
  exact (worker_leaves_rest demo_env [[7; 8]; [8; 7]; [7; 8]] mixed_world 7
           (demo_stack actionIdle StatusError 120960) Hwf eq_refl Hrest).
Defined.

(** Ten turns on a stack whose images cannot be pulled. *)
Lemma no_deploy_without_pull_witness :
  List.filter (is_deploy_of 7)
    (calls (workerIterations flaky_env (replicate 10 [7])
              (demo_world_7 actionDeploy StatusPending 0)))
  = [].
Proof.
  assert (Hfail : pull_always_fails flaky_env)
    by (intros h stack name filePaths; discriminate).
  assert (Hwf : table_wf (table (demo_world_7 actionDeploy StatusPending 0))).
  { unfold table_wf. apply (bool_decide_unpack _). vm_compute. exact I. }
  exact (no_deploy_without_pull flaky_env (replicate 10 [7])
           (demo_world_7 actionDeploy StatusPending 0) 7
           (demo_stack actionDeploy StatusPending 0)
           Hfail Hwf eq_refl (or_introl eq_refl)).
Defined.



(** A new version of stack 7 arrives after five pulls: the counter stays at
    five. *)
Lemma Retries_never_reset_witness :
  ∃ s', table (step demo_env (OpUpdateStacksStatus {[7 := 2]} [7])
                 (AtLoop, demo_world_7 actionIdle StatusDone 5)).2 !! 7
        = Some s'
        ∧ Version s' = 2 ∧ Retries s' = 5.
Proof.
  exists (mkEdgeStack 7 "web" 2 "/data/7" "docker-compose.yml" StatusPending
            actionUpdate demo_credentials "" true false 5).
  assert (Hs' : table (step demo_env (OpUpdateStacksStatus {[7 := 2]} [7])
                         (AtLoop, demo_world_7 actionIdle StatusDone 5)).2 !! 7
                = Some (mkEdgeStack 7 "web" 2 "/data/7" "docker-compose.yml"
                          StatusPending actionUpdate demo_credentials ""
                          true false 5))
    by (by vm_compute).
  split; [exact Hs'|]. split; [reflexivity|].
  assert (Hwf : table_wf
                  (table (AtLoop, demo_world_7 actionIdle StatusDone 5).2)).
  { unfold table_wf. apply (bool_decide_unpack _). vm_compute. exact I. }
  destruct (Retries_never_reset demo_env (OpUpdateStacksStatus {[7 := 2]} [7])
              (AtLoop, demo_world_7 actionIdle StatusDone 5) 7
              (demo_stack actionIdle StatusDone 5) _ Hwf eq_refl Hs')
    as [H|(_ & _ & o & n & l & Hop & _)]; [exact H|discriminate Hop].
Defined.

(** The first snapshot of stacks 7 and 8: two complete exchanges. *)
Lemma reconciler_exchanges_witness :
  ∃ xs rest,
    calls (UpdateStacksStatus demo_env demo_snapshot [7; 8] demo_world).2
    = flat_map exchange xs ++ rest
    ∧ Forall (λ x, is_Some (demo_snapshot !! x.1)
                   ∧ writes_manifest demo_env x.1 x.2 = true) xs
    ∧ rest = [].
Proof.
  assert (Hwf : table_wf (table demo_world)).
  { unfold table_wf. apply (bool_decide_unpack _). vm_compute. exact I. }
  destruct (reconciler_exchanges demo_env demo_world demo_snapshot [7; 8] Hwf)
    as (xs & rest & Hc & Hx & _ & Hnil).
  exists xs, rest. split; [exact Hc|]. split; [exact Hx|].
  apply Hnil. reflexivity.
Defined.

(** The coordinator does not answer for version 2 of stack 8: the worker
    deploys the manifest of version 1, and the record says version 2 is
    done. *)
Lemma failed_fetch_deploys_stale_witness :
  let w1 := (processStack silent_env 8 2
               (plain_world actionIdle StatusDone 1)).2 in
  let w2 := workerIteration silent_env [8] w1 in
  table w2 !! 8 = Some (plain_stack 8 actionIdle StatusDone 2)
  ∧ calls w2
    = [GetEdgeStackConfig 8;
       Deploy 8 "edge_db" ["/data/db/docker-compose.yml"] "";
       SetEdgeStackStatus 8 portainer.EdgeStackStatusOk ""].
Proof.
  assert (Hv : Version (plain_stack 8 actionIdle StatusDone 1) ≠ 2)
    by discriminate.
  destruct (failed_fetch_deploys_stale silent_env [8]
              (plain_world actionIdle StatusDone 1) 8 2
              (plain_stack 8 actionIdle StatusDone 1)
              "coordinator unreachable"
              eq_refl eq_refl Hv eq_refl eq_refl eq_refl)
    as (_ & _ & _ & Hworker).
  exact (Hworker eq_refl eq_refl).
Defined.

(** Two stacks are waiting: two turns deal with both, whichever way the
    table is ranged over. *)
Lemma worker_drains_witness :
  ∃ s', table (workerIterations demo_env [[7; 8; 9]; [9; 8; 7]] queue_world)
          !! 9 = Some s'
        ∧ Action s' = actionIdle ∧ Version s' = 3.
Proof.
  assert (Hwf : table_wf (table queue_world)).
  { unfold table_wf. apply (bool_decide_unpack _). vm_compute. exact I. }
  assert (Hdep : ∀ k s, table queue_world !! k = Some s →
                        Status s = StatusPending → deployable s).
  { unfold deployable. apply (bool_decide_unpack _). vm_compute. exact I. }
  assert (Hr : Forall (range_of (table queue_world)) [[7; 8; 9]; [9; 8; 7]]).
  { repeat constructor; unfold range_of; apply (bool_decide_unpack _);
      vm_compute; exact I. }
  assert (Hn : length [[7; 8; 9]; [9; 8; 7]]
               = size (pending (table queue_world)))
    by (by vm_compute).
  destruct (worker_drains demo_env [[7; 8; 9]; [9; 8; 7]] queue_world
              Hwf Hdep Hr Hn 9 (plain_stack 9 actionUpdate StatusPending 3)
              eq_refl)
    as (s' & Hs' & Hdone & _).
  exists s'. split; [exact Hs'|].
  destruct (Hdone eq_refl) as (Ha & _ & Hv). split; [exact Ha|exact Hv].
Defined.
